(** * The portfolio dashboard pipeline of [app.py] and
      [Dashboard-Summary-canvas.py]

    Both scripts run the same pipeline over a holdings table: coerce the
    numeric columns, add the localized display names and the holding period
    return (HPR), filter by four sidebar selections, total and group the
    filtered rows, format, and highlight negative returns.  The two scripts
    agree line by line on everything modelled here except [highlight_hpr],
    which is given once per script.

    The numeric columns are modelled twice.  The pipeline as a whole is
    embedded over numbers that keep [NaN] and the infinities and take the
    finite values as exact rationals ([Num]); this is the model of the
    properties that do not depend on how a sum or a quotient is rounded.
    The total line, whose value does depend on it, is embedded a second
    time over IEEE 754 binary64 ([F64]), on the kernel's own floats.

    The development first embeds the code (numbers, tables, localization,
    pipeline stages), then states and proves the properties. *)

From Stdlib Require Import QArith Qcanon ZArith String Ascii List Lia.
From Stdlib Require Import DecimalString DecimalFacts DecimalN DecimalPos.
From Stdlib Require PrimFloat FloatOps SpecFloat FloatAxioms ZmodDef ZmodBase.
From stdpp Require Import base numbers option list strings gmap fin_maps.

Local Open Scope Z_scope.

(** ** Numbers

    The numeric columns are pandas [float64] columns.  What the pipeline
    does with them depends on the three special values of IEEE 754: a
    missing cell is [NaN], and a division by zero gives an infinity or, for
    [0/0], [NaN].  The model keeps these three values with the IEEE rules
    of the operations on them, and takes the finite values as exact
    rationals: rounding error, overflow and the sign of zero of binary
    floating point are not modelled. *)

Module Num.

Inductive num : Type :=
  | NaN
  | PInf
  | NInf
  | Fin (q : Qc).

Global Instance num_eq_dec : EqDecision num.
Proof. solve_decision. Defined.

Definition zero : num := Fin 0%Qc.
Definition of_Z (z : Z) : num := Fin (Qc_of_Z z).

Definition is_nan (x : num) : bool :=
  match x with NaN => true | _ => false end.

(** The sign of a finite value, as [Qccompare] to zero sees it. *)
Definition Qcsgn (q : Qc) : comparison := (q ?= 0)%Qc.

Definition neg (x : num) : num :=
  match x with
  | NaN => NaN
  | PInf => NInf
  | NInf => PInf
  | Fin q => Fin (- q)%Qc
  end.

Definition add (x y : num) : num :=
  match x, y with
  | NaN, _ | _, NaN => NaN
  | PInf, NInf | NInf, PInf => NaN
  | PInf, _ | _, PInf => PInf
  | NInf, _ | _, NInf => NInf
  | Fin a, Fin b => Fin (a + b)%Qc
  end.

Definition sub (x y : num) : num := add x (neg y).

(** An infinity with the sign of [pos], flipped by the sign [c]. *)
Definition signed_inf (pos : bool) (c : comparison) : num :=
  match c with
  | Eq => NaN
  | Gt => if pos then PInf else NInf
  | Lt => if pos then NInf else PInf
  end.

Definition mul (x y : num) : num :=
  match x, y with
  | NaN, _ | _, NaN => NaN
  | PInf, PInf | NInf, NInf => PInf
  | PInf, NInf | NInf, PInf => NInf
  | PInf, Fin b => signed_inf true (Qcsgn b)
  | NInf, Fin b => signed_inf false (Qcsgn b)
  | Fin a, PInf => signed_inf true (Qcsgn a)
  | Fin a, NInf => signed_inf false (Qcsgn a)
  | Fin a, Fin b => Fin (a * b)%Qc
  end.

(** Division never raises on a [float64] column or scalar: a finite
    non-zero value over zero is an infinity of its sign, [0/0] and
    [inf/inf] are [NaN], a finite value over an infinity is zero. *)
Definition div (x y : num) : num :=
  match x, y with
  | NaN, _ | _, NaN => NaN
  | (PInf | NInf), (PInf | NInf) => NaN
  | PInf, Fin b => match Qcsgn b with Lt => NInf | _ => PInf end
  | NInf, Fin b => match Qcsgn b with Lt => PInf | _ => NInf end
  | Fin _, (PInf | NInf) => Fin 0%Qc
  | Fin a, Fin b =>
      match Qcsgn b with
      | Eq => signed_inf true (Qcsgn a)
      | _ => Fin (a / b)%Qc
      end
  end.

(** [x != 0] and [x < 0]: every comparison with [NaN] is false, so
    [NaN != 0] is true. *)
Definition ne_zero (x : num) : bool :=
  match x with
  | Fin q => negb (bool_decide (q = 0%Qc))
  | _ => true
  end.

Definition lt_zero (x : num) : bool :=
  match x with
  | NInf => true
  | Fin q => bool_decide (q < 0)%Qc
  | _ => false
  end.

(** Rounding to the nearest integer, ties to the even one ([numpy.rint],
    and the rounding of [format]). *)
Definition rint (q : Qc) : Z :=
  let a := Qnum q in
  let b := Z.pos (Qden q) in
  let f := (2 * a + b) / (2 * b) in
  if ((2 * a + b) mod (2 * b) =? 0) && Z.odd f then f - 1 else f.

(** [.round(2)]: scale by [100], [rint], scale back; the special values
    are left as they are. *)
Definition round2 (x : num) : num :=
  match x with
  | Fin q => Fin (Qc_of_Z (rint (q * Qc_of_Z 100)) / Qc_of_Z 100)%Qc
  | _ => x
  end.

(** [.fillna(0)] on one cell: only [NaN] counts as missing. *)
Definition fillna0 (x : num) : num :=
  if is_nan x then zero else x.

(** [Series.sum()] and the group-wise ['sum']: missing cells are skipped
    ([skipna=True]), and the sum of no cell is [0]. *)
Definition nansum (l : list num) : num :=
  foldr add zero (filter (λ x, is_nan x = false) l).

End Num.
Export Num.

(** ** Strings and Python values *)

Module Py.

Local Open Scope string_scope.

(** [c in s] and [s.replace(c, '')] for a one-character [c]. *)
Fixpoint contains (c : ascii) (s : string) : bool :=
  match s with
  | EmptyString => false
  | String a r => if Ascii.eqb a c then true else contains c r
  end.

Fixpoint remove_char (c : ascii) (s : string) : string :=
  match s with
  | EmptyString => EmptyString
  | String a r =>
      if Ascii.eqb a c then remove_char c r else String a (remove_char c r)
  end.

(** The decimal digits of a natural number, ["0"] for zero. *)
Definition digits (n : N) : string :=
  NilEmpty.string_of_uint (N.to_uint n).

(** [f"{x:.2f}"]: the value rounded to hundredths (ties to even), printed
    with its sign, its integer part and exactly two decimals; the sign of
    a negative value is kept when it rounds to zero (["-0.00"]). *)
Definition format_2f (x : num) : string :=
  match x with
  | NaN => "nan"
  | PInf => "inf"
  | NInf => "-inf"
  | Fin q =>
      let cents := Z.to_N (Z.abs (rint (q * Qc_of_Z 100))) in
      (if bool_decide (q < 0)%Qc then "-" else "")
        ++ digits (cents / 100) ++ "."
        ++ digits (cents mod 100 / 10) ++ digits (cents mod 10)
  end.

(** [lambda x: f"{x:.2f}%"] *)
Definition format_percent (x : num) : string := format_2f x ++ "%".

(** Splits at the first ['.']: the text before it and, when there is one,
    the text after it. *)
Fixpoint split_dot (s : string) : string * option string :=
  match s with
  | EmptyString => (EmptyString, None)
  | String a r =>
      if Ascii.eqb a "." then (EmptyString, Some r)
      else let '(i, f) := split_dot r in (String a i, f)
  end.

(** The digits of a natural number read back; [None] on any other
    character. *)
Definition N_of_digits (s : string) : option N :=
  N.of_uint <$> NilEmpty.uint_of_string s.

(** An unsigned decimal literal: digits, with an optional fraction after a
    dot; one of the two parts may be empty, not both. *)
Definition decimal_of_str (body : string) : option Qc :=
  let '(ip, fp) := split_dot body in
  let fp := default EmptyString fp in
  if String.eqb ip EmptyString && String.eqb fp EmptyString
  then None
  else
    i ← N_of_digits ip;
    f ← N_of_digits fp;
    Some (Qc_of_Z (Z.of_N i)
          + Qc_of_Z (Z.of_N f) / Qc_of_Z (10 ^ Z.of_nat (String.length fp)))%Qc.

Definition unsigned_of_str (body : string) : option num :=
  if String.eqb body "inf" then Some PInf
  else if String.eqb body "nan" then Some NaN
  else Fin <$> decimal_of_str body.

(** [float(s)] on the literals [format_2f] can produce: an optional sign
    followed by [inf], [nan] or decimal digits with an optional fraction.
    [None] stands for every other string: Python raises [ValueError] on
    most of them, and the forms it also accepts (exponents, underscores,
    surrounding blanks, upper-case [INF]) are outside this model. *)
Definition float_of_str (s : string) : option num :=
  match s with
  | String "-" body => neg <$> unsigned_of_str body
  | String "+" body => unsigned_of_str body
  | _ => unsigned_of_str s
  end.

(** What a cell of a displayed column can hold. *)
Inductive pyobj : Type :=
  | PyStr (s : string)
  | PyNum (x : num).

(** What a styling function can be called with: one string, or a whole
    column as a [Series]. *)
Inductive pyarg : Type :=
  | AStr (s : string)
  | ASeries (col : list pyobj).

Inductive exn : Type :=
  | KeyError (key : string).

Inductive result (A : Type) : Type :=
  | Ok (a : A)
  | Raise (e : exn).
Global Arguments Ok {A} a.
Global Arguments Raise {A} e.

Global Instance result_ret : MRet result := λ A a, Ok a.
Global Instance result_bind : MBind result := λ A B k m,
  match m with
  | Ok a => k a
  | Raise e => Raise e
  end.

End Py.
Export Py.

(** ** Localization store

    A text cell of the holdings table is a string, or missing ([None],
    which pandas holds as [NaN]).  The three mapping files are JSON objects
    from a domain code to an object from a language tag to a display
    string.  [member_mapping] and [stock_mapping] are only read by key;
    [sector_mapping] is scanned in the order of its entries, so it is kept
    as the list of its items. *)

Abbreviation cell := (option string).

Module Localization.

Local Open Scope string_scope.

Abbreviation names := (gmap string string).

(** [mapping.get(code, {}).get(lang, code)]; a missing cell is the key of
    no entry. *)
Definition get_member_name
    (member_mapping : gmap string names) (member_code : cell)
    (lang : string) : cell :=
  match default ∅ (member_code ≫= (member_mapping !!.)) !! lang with
  | Some name => Some name
  | None => member_code
  end.

Definition get_stock_name
    (stock_mapping : gmap string names) (isin_code : cell)
    (lang : string) : cell :=
  match default ∅ (isin_code ≫= (stock_mapping !!.)) !! lang with
  | Some name => Some name
  | None => isin_code
  end.

(** The scan of [sector_mapping.items()]: [value['en']] raises [KeyError]
    on an entry without an English name; the first entry whose English
    name is the given one answers. *)
Fixpoint get_sector_name
    (sector_mapping : list (string * names)) (sector_name_en : cell)
    (lang : string) : result cell :=
  match sector_mapping with
  | [] => Ok sector_name_en
  | (key, value) :: rest =>
      match value !! "en" with
      | None => Raise (KeyError "en")
      | Some en =>
          if decide (Some en = sector_name_en)
          then Ok (match value !! lang with
                   | Some name => Some name
                   | None => sector_name_en
                   end)
          else get_sector_name rest sector_name_en lang
      end
  end.

End Localization.
Export Localization.

(** ** The holdings table *)

Module Frame.

(** A row of the CSV text: every cell a string or empty. *)
Record RawHolding : Type := {
  raw_Member_Code : cell;
  raw_ISIN_Code : cell;
  raw_Sector_Name : cell;
  raw_Broker : cell;
  raw_Portfolio : cell;
  raw_Qty : cell;
  raw_Value_At_Cost : cell;
  raw_Value_At_Market_Price : cell
}.

(** A row after the three numeric columns went through [pd.to_numeric]. *)
Record Holding : Type := {
  Member_Code : cell;
  ISIN_Code : cell;
  Sector_Name : cell;
  Broker : cell;
  Portfolio : cell;
  Qty : num;
  Value_At_Cost : num;
  Value_At_Market_Price : num
}.

(** A row with the four added columns. *)
Record EnrichedHolding : Type := {
  holding : Holding;
  Member_Name : cell;
  Stock_Display_Name : cell;
  Sector_Display_Name : cell;
  HPR : num
}.

(** A row of the summary table, under its group key. *)
Record SummaryRow : Type := {
  Investment : num;
  Current_Value : num;
  Summary_HPR : num
}.

(** The four sidebar selections: ['All'] or a value of the column, which
    is missing when the column has an empty cell. *)
Record FilterSelection : Type := {
  selected_portfolio : cell;
  selected_member : cell;
  selected_sector : cell;
  selected_broker : cell
}.

(** The keys of [summarize_by_options]. *)
Inductive dimension : Type :=
  | ByMember
  | BySector
  | ByBroker.

Global Instance Holding_eq_dec : EqDecision Holding.
Proof. solve_decision. Defined.
Global Instance EnrichedHolding_eq_dec : EqDecision EnrichedHolding.
Proof. solve_decision. Defined.
Global Instance SummaryRow_eq_dec : EqDecision SummaryRow.
Proof. solve_decision. Defined.

End Frame.
Export Frame.

(** ** The pipeline *)

(** The expression [((current - investment) / investment * 100).round(2)]
    that the row, the total and the group level share. *)
Definition hpr_expr (current investment : num) : num :=
  round2 (mul (div (sub current investment) investment) (of_Z 100)).

Section Load.

(** The reader of one numeric literal inside [pd.to_numeric]; it is
    pandas' own, so it is left open here. *)
Variable parse_number : string -> option num.

(** [pd.to_numeric(column, errors='coerce')] on one cell. *)
Definition to_numeric (c : cell) : num :=
  match c with
  | None => NaN
  | Some s => default NaN (parse_number s)
  end.

Definition clean_row (r : RawHolding) : Holding :=
  {| Member_Code := raw_Member_Code r;
     ISIN_Code := raw_ISIN_Code r;
     Sector_Name := raw_Sector_Name r;
     Broker := raw_Broker r;
     Portfolio := raw_Portfolio r;
     Qty := to_numeric (raw_Qty r);
     Value_At_Cost := to_numeric (raw_Value_At_Cost r);
     Value_At_Market_Price := to_numeric (raw_Value_At_Market_Price r) |}.

Definition clean (df : list RawHolding) : list Holding :=
  clean_row <$> df.

End Load.

(** The [HPR] column of one row: the shared expression, then
    [.fillna(0)]. *)
Definition row_hpr (h : Holding) : num :=
  fillna0 (hpr_expr (Value_At_Market_Price h) (Value_At_Cost h)).

Section Enrich.

Variable member_mapping : gmap string names.
Variable sector_mapping : list (string * names).
Variable stock_mapping : gmap string names.
Variable lang : string.

Definition enrich_row (h : Holding) : result EnrichedHolding :=
  sector ← get_sector_name sector_mapping (Sector_Name h) lang;
  mret {| holding := h;
          Member_Name := get_member_name member_mapping (Member_Code h) lang;
          Stock_Display_Name := get_stock_name stock_mapping (ISIN_Code h) lang;
          Sector_Display_Name := sector;
          HPR := row_hpr h |}.

Definition enrich (df : list Holding) : result (list EnrichedHolding) :=
  mapM enrich_row df.

End Enrich.

(** *** Filters *)

(** [column == selected] on one cell: a missing cell equals nothing. *)
Definition cell_eq (c selected : cell) : Prop :=
  is_Some c ∧ c = selected.

Global Instance cell_eq_dec c selected : Decision (cell_eq c selected).
Proof. unfold cell_eq. apply _. Defined.

(** One [if selected != 'All': filtered_df = filtered_df[column == selected]]. *)
Definition select (column : EnrichedHolding -> cell) (selected : cell)
    (filtered_df : list EnrichedHolding) : list EnrichedHolding :=
  if decide (selected ≠ Some "All"%string)
  then filter (λ r, cell_eq (column r) selected) filtered_df
  else filtered_df.

Definition apply_filters (sel : FilterSelection)
    (df : list EnrichedHolding) : list EnrichedHolding :=
  let filtered_df := df in
  let filtered_df := select (Portfolio ∘ holding) (selected_portfolio sel) filtered_df in
  let filtered_df := select Member_Name (selected_member sel) filtered_df in
  let filtered_df := select Sector_Display_Name (selected_sector sel) filtered_df in
  let filtered_df := select (Broker ∘ holding) (selected_broker sel) filtered_df in
  filtered_df.

(** *** Totals *)

Definition total_investment (filtered_df : list EnrichedHolding) : num :=
  nansum ((Value_At_Cost ∘ holding) <$> filtered_df).

Definition total_current_value (filtered_df : list EnrichedHolding) : num :=
  nansum ((Value_At_Market_Price ∘ holding) <$> filtered_df).

Definition total_hpr (filtered_df : list EnrichedHolding) : num :=
  let total_investment := total_investment filtered_df in
  let total_current_value := total_current_value filtered_df in
  if ne_zero total_investment
  then hpr_expr total_current_value total_investment
  else zero.

(** *** The HPR of a row and the total line on binary64

    The HPR column and the three lines of the total over [float64] cells,
    with the operations of IEEE 754 binary64 (round to nearest, ties to
    even; overflow to an infinity; signed zeros; [NaN]). *)

Module F64.

Import PrimFloat FloatOps SpecFloat.

(** The integer nearest to [m / d] for [0 < d], the even one of the two
    nearest when [m / d] is half-way between them. *)
Definition round_half_even (m d : Z) : Z :=
  let q := m / d in
  match 2 * (m mod d) ?= d with
  | Lt => q
  | Gt => q + 1
  | Eq => if Z.even q then q else q + 1
  end.

(** The integer [n >= 0] with the sign [s], as a floating-point datum. *)
Definition integer (s : bool) (n : Z) : spec_float :=
  match n with
  | Z.pos p => S754_finite s p 0
  | _ => S754_zero s
  end.

(** [numpy.rint]: the nearest integer, ties to even, with the sign of the
    argument (so [rint(-0.4)] is [-0.0]); [NaN], the infinities and the
    zeros are returned as they are.  A finite non-zero double is
    [(-1)^s * m * 2^e]; with [0 <= e] it is an integer already. *)
Definition rint (x : float) : float :=
  match Prim2SF x with
  | S754_finite s m e =>
      if 0 <=? e then x
      else SF2Prim (integer s (round_half_even (Z.pos m) (2 ^ (- e))))
  | _ => x
  end.

(** [.round(2)] of numpy: multiply by [100], [rint], divide by [100], each
    of the three steps rounded to binary64. *)
Definition round2 (x : float) : float := (rint (x * 100) / 100)%float.

(** The two money columns of one row of [filtered_df]. *)
Record Amounts : Type := {
  Value_At_Cost : float;
  Value_At_Market_Price : float
}.

(** Lines 97 and 98 on one row: the rounded expression, and [0] in its
    place where it is [NaN]. *)
Definition row_hpr (r : Amounts) : float :=
  let hpr :=
    round2 ((Value_At_Market_Price r - Value_At_Cost r)
            / Value_At_Cost r * 100)%float in
  if is_nan hpr then 0%float else hpr.

Section Totals.

(** [Series.sum()] is pandas' code: the order in which it adds the cells,
    and so the rounding of the total, is not fixed by the scripts.  The
    total line is embedded over any such function. *)
Variable series_sum : list float -> float.

Definition total_investment (filtered_df : list Amounts) : float :=
  series_sum (Value_At_Cost <$> filtered_df).

Definition total_current_value (filtered_df : list Amounts) : float :=
  series_sum (Value_At_Market_Price <$> filtered_df).

(** [x != 0] is [negb (x =? 0)]: true of [NaN], false of [-0.0]. *)
Definition total_hpr (filtered_df : list Amounts) : float :=
  let total_investment := total_investment filtered_df in
  let total_current_value := total_current_value filtered_df in
  if negb (total_investment =? 0)%float
  then round2 ((total_current_value - total_investment)
               / total_investment * 100)%float
  else 0%float.

(** A division that fails on a zero divisor, as the division of Python's
    own numbers does ([ZeroDivisionError]); numpy's, which the line uses,
    gives an infinity or [NaN] there. *)
Definition checked_div (x y : float) : option float :=
  if (y =? 0)%float then None else Some (x / y)%float.

(** The total line once more, with the failing division: the conditional
    expression evaluates its first operand only when the test holds. *)
Definition total_hpr_checked (filtered_df : list Amounts) : option float :=
  let total_investment := total_investment filtered_df in
  let total_current_value := total_current_value filtered_df in
  if negb (total_investment =? 0)%float
  then
    ratio ← checked_div (total_current_value - total_investment)%float
                        total_investment;
    Some (round2 (ratio * 100)%float)
  else Some 0%float.

End Totals.

(** One summation, to evaluate examples: the cells added one after the
    other in table order from [0], missing cells skipped. *)
Definition sum_in_order (column : list float) : float :=
  fold_left (λ acc x, if is_nan x then acc else (acc + x)%float)
            column 0%float.

End F64.

(** *** Aggregation *)

Definition summarize_by_options (d : dimension) : EnrichedHolding -> cell :=
  match d with
  | ByMember => Member_Name
  | BySector => Sector_Display_Name
  | ByBroker => Broker ∘ holding
  end.

(** [filtered_df.groupby(column)]: the rows of each key, in table order;
    a row whose key is missing is in no group ([dropna=True]). *)
Fixpoint groupby (column : EnrichedHolding -> cell)
    (filtered_df : list EnrichedHolding) : gmap string (list EnrichedHolding) :=
  match filtered_df with
  | [] => ∅
  | r :: rest =>
      let groups := groupby column rest in
      match column r with
      | None => groups
      | Some k => <[k := r :: default [] (groups !! k)]> groups
      end
  end.

(** [.agg(Investment=('Value At Cost','sum'), Current_Value=(...,'sum'))]
    and the [HPR] column computed from the two sums. *)
Definition summarize (rows : list EnrichedHolding) : SummaryRow :=
  let investment := total_investment rows in
  let current_value := total_current_value rows in
  {| Investment := investment;
     Current_Value := current_value;
     Summary_HPR := fillna0 (hpr_expr current_value investment) |}.

Definition summary_table (group_by_column : EnrichedHolding -> cell)
    (filtered_df : list EnrichedHolding) : gmap string SummaryRow :=
  summarize <$> groupby group_by_column filtered_df.

(** [filtered_df.groupby(allocation_column)['Value At Cost'].sum()] *)
Definition allocation_data (allocation_column : EnrichedHolding -> cell)
    (filtered_df : list EnrichedHolding) : gmap string num :=
  total_investment <$> groupby allocation_column filtered_df.

(** The sum of one column of a keyed table. *)
Definition column_sum {A} (f : A -> num) (table : gmap string A) : num :=
  map_fold (λ _ row acc, add (f row) acc) zero table.

(** The mean of a list of finite values (for comparison only). *)
Definition mean (l : list num) : num :=
  div (foldr add zero l) (of_Z (Z.of_nat (length l))).

(** *** Highlighting *)

Definition light_red : string := "background-color: #ffe6e6".

(** [highlight_hpr] of [app.py]. *)
Definition highlight_hpr_app (s : pyarg) : option (list string) :=
  match s with
  | AStr str =>
      if contains "%" str
      then
        value ← float_of_str (remove_char "%" str);
        Some ((λ _, if lt_zero value then light_red else ""%string)
                <$> list_ascii_of_string str)
      else Some ((λ _, ""%string) <$> list_ascii_of_string str)
  | ASeries col => Some ((λ _, ""%string) <$> col)
  end.

(** [highlight_hpr] of [Dashboard-Summary-canvas.py]: one style per value
    of [s]; the values of a string are its characters. *)
Definition highlight_val (val : pyobj) : option string :=
  match val with
  | PyStr v =>
      value ← float_of_str (remove_char "%" v);
      Some (if lt_zero value then light_red else ""%string)
  | PyNum _ => Some ""%string
  end.

Definition highlight_hpr_canvas (s : pyarg) : option (list string) :=
  match s with
  | AStr str =>
      mapM (λ c, highlight_val (PyStr (String c EmptyString)))
           (list_ascii_of_string str)
  | ASeries col => mapM highlight_val col
  end.

(** [table.style.apply(func, subset=[column])]: with the default axis the
    function is called once with the whole column. *)
Definition style_apply (func : pyarg -> option (list string))
    (column : list pyobj) : option (list string) :=
  func (ASeries column).

(** The displayed [HPR] column: [.apply(lambda x: f"{x:.2f}%")]. *)
Definition formatted_hpr (column : list num) : list pyobj :=
  (PyStr ∘ format_percent) <$> column.

(** ** The specification's vocabulary

    The definitions below follow the words of the specification; the
    properties compare them with the code above. *)

(** The four filter dimensions, with the selection and the row field that
    belong to each. *)
Inductive filter_dimension : Type :=
  | OnPortfolio
  | OnMember
  | OnSector
  | OnBroker.

Definition selection (sel : FilterSelection) (d : filter_dimension) : cell :=
  match d with
  | OnPortfolio => selected_portfolio sel
  | OnMember => selected_member sel
  | OnSector => selected_sector sel
  | OnBroker => selected_broker sel
  end.

Definition field (d : filter_dimension) (r : EnrichedHolding) : cell :=
  match d with
  | OnPortfolio => Portfolio (holding r)
  | OnMember => Member_Name r
  | OnSector => Sector_Display_Name r
  | OnBroker => Broker (holding r)
  end.

(** "For every dimension whose selection is not All, the row's field is
    string-equal to the selected value." *)
Definition passes (sel : FilterSelection) (r : EnrichedHolding) : Prop :=
  ∀ d, selection sel d ≠ Some "All"%string ->
       ∃ s : string, field d r = Some s ∧ selection sel d = Some s.

(** One dimension of [passes], as the code tests it. *)
Definition keeps (column : EnrichedHolding -> cell) (selected : cell)
    (r : EnrichedHolding) : Prop :=
  selected ≠ Some "All"%string -> cell_eq (column r) selected.

Global Instance keeps_dec column selected r : Decision (keeps column selected r).
Proof. unfold keeps. apply _. Defined.

(** "The table has no entry for the code, or the matching entry has no
    value for the language." *)
Definition no_value (table : gmap string names) (code : cell)
    (lang : string) : Prop :=
  ∀ s entry, code = Some s -> table !! s = Some entry -> entry !! lang = None.

(** The same for the sector table, whose entries match by their English
    name. *)
Definition sector_no_value (sector_mapping : list (string * names))
    (sector_name_en : cell) (lang : string) : Prop :=
  ∀ key value, (key, value) ∈ sector_mapping ->
               is_Some sector_name_en -> value !! "en"%string = sector_name_en ->
               value !! lang = None.

(** Every entry of the sector table has an English name. *)
Definition all_have_en (sector_mapping : list (string * names)) : Prop :=
  Forall (λ kv, is_Some (kv.2 !! "en"%string)) sector_mapping.

(** The three numeric columns, before and after the load. *)
Inductive numeric_column : Type :=
  | Col_Qty
  | Col_Value_At_Cost
  | Col_Value_At_Market_Price.

Definition raw_numeric (c : numeric_column) (r : RawHolding) : cell :=
  match c with
  | Col_Qty => raw_Qty r
  | Col_Value_At_Cost => raw_Value_At_Cost r
  | Col_Value_At_Market_Price => raw_Value_At_Market_Price r
  end.

Definition numeric (c : numeric_column) (h : Holding) : num :=
  match c with
  | Col_Qty => Qty h
  | Col_Value_At_Cost => Value_At_Cost h
  | Col_Value_At_Market_Price => Value_At_Market_Price h
  end.

(** The text columns of a row are those of its raw row. *)
Definition same_text (r : RawHolding) (h : Holding) : Prop :=
  Member_Code h = raw_Member_Code r ∧ ISIN_Code h = raw_ISIN_Code r ∧
  Sector_Name h = raw_Sector_Name r ∧ Broker h = raw_Broker r ∧
  Portfolio h = raw_Portfolio r.

(** The characters of a printed number. *)
Definition is_digit (a : ascii) : bool :=
  match a with
  | "0" | "1" | "2" | "3" | "4" | "5" | "6" | "7" | "8" | "9" => true
  | _ => false
  end%char.

Fixpoint all_digits (s : string) : bool :=
  match s with
  | EmptyString => true
  | String a r => is_digit a && all_digits r
  end.

(** The style a displayed percentage is expected to get: light red when
    the number it shows is below zero. *)
Definition expected_style (x : num) : string :=
  if lt_zero (round2 x) then light_red else ""%string.

(** One step of [nansum]. *)
Definition nanadd (x acc : num) : num :=
  if is_nan x then acc else add x acc.

(** *** Rounding to two decimals

    What "rounded to 2 decimal places" means on binary64, said without
    the functions of [F64]: through the decomposition of a finite double
    into sign, integer mantissa and exponent that [Prim2SF] gives. *)

(** [n] is an integer nearest to [m / d], and the even one if [m / d] is
    half-way between two integers. *)
Definition nearest_even (m d n : Z) : Prop :=
  Z.abs (2 * (n * d - m)) <= d ∧
  (Z.abs (2 * (n * d - m)) = d -> Z.even n = true).

Section Rounding.

Import PrimFloat FloatOps SpecFloat.



End Rounding.

(** *** Sums over the groups

    The conservation law speaks of sums of amounts: of the cells of one
    column, and of the per-group values of a table.  They are given for
    any type of amounts [M] with an addition [op] and its zero [unit]. *)

Section Sums.

Context {M : Type} (op : M -> M -> M) (unit : M).

(** The cells of a column, added up. *)
Definition column_total (cells : list M) : M := foldr op unit cells.

(** [filtered_df.groupby(column)[amount].sum()]: for each key, the
    amounts of the rows of its group, added up. *)
Definition group_totals (column : EnrichedHolding -> cell)
    (amount : EnrichedHolding -> M) (filtered_df : list EnrichedHolding)
    : gmap string M :=
  (λ rows, column_total (amount <$> rows)) <$> groupby column filtered_df.

(** The values of a keyed table, added up. *)
Definition table_total (table : gmap string M) : M :=
  map_fold (λ _ x acc, op x acc) unit table.

End Sums.

(** The rows of a table that have a value in [column]. *)
Definition keyed_rows (column : EnrichedHolding -> cell)
    (filtered_df : list EnrichedHolding) : list EnrichedHolding :=
  filter (λ r, is_Some (column r)) filtered_df.

(** ** Sample rows *)

(** A row that carries only the two money columns. *)
Definition holding_of (cost market : num) : Holding :=
  {| Member_Code := None; ISIN_Code := None; Sector_Name := None;
     Broker := None; Portfolio := None; Qty := NaN;
     Value_At_Cost := cost; Value_At_Market_Price := market |}.

(** An enriched row with a broker and the two money columns. *)
Definition broker_row (broker : cell) (cost market : Z) : EnrichedHolding :=
  let h := {| Member_Code := None; ISIN_Code := None; Sector_Name := None;
              Broker := broker; Portfolio := None; Qty := NaN;
              Value_At_Cost := of_Z cost;
              Value_At_Market_Price := of_Z market |} in
  {| holding := h; Member_Name := None; Stock_Display_Name := None;
     Sector_Display_Name := None; HPR := row_hpr h |}.

(** The cost of a row when it is a whole number, and [0] otherwise. *)
Definition whole_cost (r : EnrichedHolding) : Z :=
  match Value_At_Cost (holding r) with
  | Fin q => if decide (Qden q = 1%positive) then Qnum q else 0
  | _ => 0
  end.

(** The same cost as an [int64], which wraps around, and in tenths as a
    binary64. *)
Definition int64_cost (r : EnrichedHolding) : ZmodDef.Zmod (2 ^ 64) :=
  ZmodDef.Zmod.of_Z (2 ^ 64) (whole_cost r).

Definition tenths_cost (r : EnrichedHolding) : PrimFloat.float :=
  PrimFloat.div
    (FloatOps.SF2Prim
       (F64.integer (whole_cost r <? 0) (Z.abs (whole_cost r))))
    (FloatOps.SF2Prim (F64.integer false 10)).

(** A raw row whose cost is not a number and whose quantity is empty. *)
Definition sample_raw : RawHolding :=
  {| raw_Member_Code := Some "M1"%string; raw_ISIN_Code := Some "INE001"%string;
     raw_Sector_Name := Some "Finance"%string; raw_Broker := None;
     raw_Portfolio := Some "P1"%string; raw_Qty := None;
     raw_Value_At_Cost := Some "abc"%string;
     raw_Value_At_Market_Price := Some "120.50"%string |}.

(** ** The rest of the two scripts *)

Module Page.

Local Open Scope string_scope.

(** [get_text]: [titles_mapping.get(key, {}).get(lang, key)]. *)
Definition get_text (titles_mapping : gmap string names)
    (key lang : string) : string :=
  default key (default ∅ (titles_mapping !! key) !! lang).

(** The header of the stock column of the detail table, in
    [Dashboard-Summary-canvas.py] and in [app.py]. *)
Definition stock_header_canvas (titles_mapping : gmap string names)
    (lang : string) : string :=
  if decide (get_text titles_mapping "Stock Name" lang ≠ "Stock Name")
  then get_text titles_mapping "Stock Name" lang
  else "Stock Name".

Definition stock_header_app (titles_mapping stock_mapping : gmap string names)
    (lang : string) : cell :=
  if decide (lang = "en")
  then Some (get_text titles_mapping "Stock Name" lang)
  else get_stock_name stock_mapping (Some "ISIN Code") lang.

(** The comma of [f"{value:,.2f}"], on the digits of the integer part
    taken from the right: one after every three digits that are followed
    by more. *)
Fixpoint group3 (reversed : list ascii) : list ascii :=
  match reversed with
  | a :: b :: c :: ((_ :: _) as more) => a :: b :: c :: ","%char :: group3 more
  | _ => reversed
  end.

Definition group_thousands (s : string) : string :=
  string_of_list_ascii (rev (group3 (rev (list_ascii_of_string s)))).

(** [f"{value:,.2f}"]: [format_2f] with the integer part grouped. *)
Definition format_grouped_2f (x : num) : string :=
  match x with
  | Fin q =>
      let cents := Z.to_N (Z.abs (rint (q * Qc_of_Z 100))) in
      (if bool_decide (q < 0)%Qc then "-" else "")
        ++ group_thousands (digits (cents / 100)) ++ "."
        ++ digits (cents mod 100 / 10) ++ digits (cents mod 10)
  | _ => format_2f x
  end.

(** [format_currency]: the rupee sign (three bytes of UTF-8), a blank and
    the grouped number. *)
Definition rupee : string :=
  String (ascii_of_nat 226) (String (ascii_of_nat 130)
    (String (ascii_of_nat 185) EmptyString)).

Definition format_currency (value : num) : string :=
  rupee ++ " " ++ format_grouped_2f value.

(** What is read back from a currency string: the text after the sign and
    the blank, without the commas. *)
Definition amount_text (s : string) : string :=
  remove_char "," (string_of_list_ascii (drop 4 (list_ascii_of_string s))).

(** [column.unique().tolist()]: the values in the order they first appear,
    a missing cell being one value. *)
Fixpoint unique_from (seen : list cell) (column : list cell) : list cell :=
  match column with
  | [] => []
  | x :: rest =>
      if decide (x ∈ seen) then unique_from seen rest
      else x :: unique_from (x :: seen) rest
  end.

Definition unique (column : list cell) : list cell := unique_from [] column.

(** The options of one sidebar select box: [['All'] + column.unique()]. *)
Definition sidebar_options (d : filter_dimension)
    (df : list EnrichedHolding) : list cell :=
  Some "All" :: unique (field d <$> df).

(** The selection a sidebar starts with (every box on its first option),
    and the selection that changes one box only. *)
Definition default_selection : FilterSelection :=
  {| selected_portfolio := Some "All"; selected_member := Some "All";
     selected_sector := Some "All"; selected_broker := Some "All" |}.

Definition select_only (d : filter_dimension) (v : cell) : FilterSelection :=
  match d with
  | OnPortfolio => {| selected_portfolio := v; selected_member := Some "All";
                      selected_sector := Some "All"; selected_broker := Some "All" |}
  | OnMember => {| selected_portfolio := Some "All"; selected_member := v;
                   selected_sector := Some "All"; selected_broker := Some "All" |}
  | OnSector => {| selected_portfolio := Some "All"; selected_member := Some "All";
                   selected_sector := v; selected_broker := Some "All" |}
  | OnBroker => {| selected_portfolio := Some "All"; selected_member := Some "All";
                   selected_sector := Some "All"; selected_broker := v |}
  end.

(** What the page shows below the sidebar: nothing for an empty table
    ([if not df.empty]), the warning when the filters keep no row
    ([if filtered_df.empty]), the dashboard of the kept rows otherwise. *)
Inductive page : Type :=
  | Nothing
  | NoDataWarning
  | Dashboard (filtered_df : list EnrichedHolding).

Definition render (sel : FilterSelection) (df : list EnrichedHolding) : page :=
  if decide (df = []) then Nothing
  else
    let filtered_df := apply_filters sel df in
    if decide (filtered_df = []) then NoDataWarning
    else Dashboard filtered_df.

(** The filter dimension that tests the column a summary groups by. *)
Definition filter_of (d : dimension) : filter_dimension :=
  match d with
  | ByMember => OnMember
  | BySector => OnSector
  | ByBroker => OnBroker
  end.

(** A row of the displayed detail table: the text columns as they are,
    the quantity as it is, the two money columns through
    [format_currency], the HPR as a percentage. *)
Record DisplayRow : Type := {
  shown_member : cell;
  shown_broker : cell;
  shown_sector : cell;
  shown_stock : cell;
  shown_qty : num;
  shown_cost : string;
  shown_market : string;
  shown_hpr : string
}.

Definition display_row (r : EnrichedHolding) : DisplayRow :=
  {| shown_member := Member_Name r;
     shown_broker := Broker (holding r);
     shown_sector := Sector_Display_Name r;
     shown_stock := Stock_Display_Name r;
     shown_qty := Qty (holding r);
     shown_cost := format_currency (Value_At_Cost (holding r));
     shown_market := format_currency (Value_At_Market_Price (holding r));
     shown_hpr := format_percent (HPR r) |}.

Definition display_df (filtered_df : list EnrichedHolding) : list DisplayRow :=
  display_row <$> filtered_df.

(** What an enriched row is made of. *)
Definition enriched_from (member_mapping : gmap string names)
    (sector_mapping : list (string * names))
    (stock_mapping : gmap string names) (lang : string)
    (h : Holding) (r : EnrichedHolding) : Prop :=
  holding r = h ∧
  Member_Name r = get_member_name member_mapping (Member_Code h) lang ∧
  Stock_Display_Name r = get_stock_name stock_mapping (ISIN_Code h) lang ∧
  get_sector_name sector_mapping (Sector_Name h) lang
    = Ok (Sector_Display_Name r) ∧
  HPR r = row_hpr h.


End Page.
Export Page.

(** * Properties *)

(** ** Facts about the numbers *)

(** Decides a closed equation, or its negation, between numbers or tables
    of numbers: two rationals are equal when their reduced fractions are. *)
Ltac num_eval :=
  cbv zeta;
  repeat match goal with |- _ ∧ _ => split end;
  first [ reflexivity
        | apply (bool_decide_unpack _); vm_compute; exact I ].

Example round2_half_even :
  round2 (Fin (Q2Qc (5 # 1000))) = Fin 0%Qc /\
  round2 (Fin (Q2Qc (15 # 1000))) = Fin (Q2Qc (2 # 100)).
Proof. num_eval. Qed.

Example format_percent_examples :
  format_percent (Fin (Q2Qc (1333 # 100))) = "13.33%"%string /\
  format_percent (Fin (Q2Qc (-1 # 1000))) = "-0.00%"%string /\
  format_percent (of_Z (-5)) = "-5.00%"%string /\
  format_percent PInf = "inf%"%string.
Proof. repeat split; vm_compute; reflexivity. Qed.

Example float_of_str_examples :
  float_of_str "-5.00" = Some (of_Z (-5)) /\
  float_of_str "-0.00" = Some zero /\
  float_of_str "13.33" = Some (Fin (Q2Qc (1333 # 100))) /\
  float_of_str "-inf" = Some NInf /\
  float_of_str "abc" = None.
Proof. num_eval. Qed.

Lemma add_comm (x y : num) : add x y = add y x.
Proof. destruct x, y; simpl; try reflexivity. f_equal. ring. Qed.

Lemma add_assoc (x y z : num) : add x (add y z) = add (add x y) z.
Proof. destruct x, y, z; simpl; try reflexivity. f_equal. ring. Qed.

Lemma add_zero_l (x : num) : add zero x = x.
Proof. destruct x; simpl; try reflexivity. f_equal. ring. Qed.

Lemma add_zero_r (x : num) : add x zero = x.
Proof. rewrite add_comm. apply add_zero_l. Qed.


Lemma fillna0_not_nan (x : num) : x ≠ NaN -> fillna0 x = x.
Proof. by destruct x. Qed.

Lemma fillna0_is_nan (x : num) : fillna0 x = zero <-> x = NaN ∨ x = zero.
Proof.
  destruct x; unfold fillna0; simpl; split; try discriminate; auto;
    intros [H | H]; auto; discriminate.
Qed.

Lemma Qcsgn_Eq (q : Qc) : Qcsgn q = Eq <-> q = 0%Qc.
Proof. unfold Qcsgn. symmetry. apply Qceq_alt. Qed.

(** ** The holding period return of a row, a group and the total *)

(** Where the expression has a value, the row's HPR is that value. *)
Lemma row_hpr_formula (h : Holding) :
  hpr_expr (Value_At_Market_Price h) (Value_At_Cost h) ≠ NaN ->
  row_hpr h =
    round2 (mul (div (sub (Value_At_Market_Price h) (Value_At_Cost h))
                     (Value_At_Cost h)) (of_Z 100)).
Proof. intros H. unfold row_hpr. by rewrite fillna0_not_nan. Qed.


(** A zero cost with a zero market value ([0/0]) gives HPR [0]. *)
Lemma row_hpr_zero_over_zero (h : Holding) :
  Value_At_Cost h = zero -> Value_At_Market_Price h = zero -> row_hpr h = zero.
Proof. unfold row_hpr, hpr_expr. intros -> ->. reflexivity. Qed.

(** A zero cost with any finite non-zero market value gives an infinite
    HPR of the sign of the market value: [fillna] leaves it. *)
Lemma row_hpr_zero_cost (h : Holding) (m : Qc) :
  Value_At_Cost h = zero -> Value_At_Market_Price h = Fin m -> m ≠ 0%Qc ->
  row_hpr h = if bool_decide (0 < m)%Qc then PInf else NInf.
Proof.
  unfold row_hpr, hpr_expr. intros -> -> Hm. simpl.
  replace (m + - 0)%Qc with m by ring.
  change (Qcsgn 0) with Eq. simpl.
  unfold Qcsgn. destruct (m ?= 0)%Qc eqn:E.
  - by apply Qceq_alt in E.
  - apply Qclt_alt in E. rewrite bool_decide_eq_false_2; [reflexivity |].
    by apply Qcle_not_lt, Qclt_le_weak.
  - apply Qcgt_alt in E. by rewrite bool_decide_eq_true_2.
Qed.

(** C1: a row with cost [0] and market value [500] gets an infinite HPR,
    where the claim (and the comment above the line) promise [0]. *)
Theorem row_hpr_cost_0_market_500 :
  row_hpr (holding_of (of_Z 0) (of_Z 500)) = PInf.
Proof. num_eval. Qed.


(** The only row has cost [0] and market value [500]: the total HPR is
    [0], while the row's own HPR is infinite. *)
Example total_hpr_cost_0_market_500 :
  total_hpr [broker_row (Some "B1"%string) 0 500] = zero /\
  HPR (broker_row (Some "B1"%string) 0 500) = PInf.
Proof. num_eval. Qed.

(** ** The total line on binary64 *)


(** There is one such integer only: [nearest_even] determines the
    rounding. *)
Lemma nearest_even_unique (m d n n' : Z) :
  0 < d -> nearest_even m d n -> nearest_even m d n' -> n = n'.
Proof.
  unfold nearest_even. intros Hd [H1 E1] [H2 E2].
  assert (n' = n - 1 ∨ n' = n ∨ n' = n + 1) as [-> | [-> | ->]] by nia;
    [| done |].
  - assert (Z.abs (2 * (n * d - m)) = d) as T1 by nia.
    assert (Z.abs (2 * ((n - 1) * d - m)) = d) as T2 by nia.
    specialize (E1 T1). specialize (E2 T2).
    by rewrite Z.even_sub, E1 in E2.
  - assert (Z.abs (2 * (n * d - m)) = d) as T1 by nia.
    assert (Z.abs (2 * ((n + 1) * d - m)) = d) as T2 by nia.
    specialize (E1 T1). specialize (E2 T2).
    by rewrite Z.even_add, E1 in E2.
Qed.

Section TotalLine.

Import PrimFloat FloatOps SpecFloat.

(** A decimal literal stands for the double nearest to it. *)
Local Set Warnings "-inexact-float".



(** [rint] on ties, below a tie, on a negative number that rounds to
    [-0.0], and on values it leaves as they are. *)
Example rint_examples :
  F64.rint 2.5 = 2%float ∧ F64.rint 3.5 = 4%float ∧
  F64.rint (-2.5) = (-2)%float ∧
  F64.rint 1437.4999999999998 = 1437%float ∧
  F64.rint 1437.5 = 1438%float ∧
  F64.rint (-0.4) = (-0)%float ∧ (1 / F64.rint (-0.4) = neg_infinity)%float ∧
  F64.rint 1e300 = 1e300%float ∧ F64.rint infinity = infinity ∧
  is_nan (F64.rint nan) = true.
Proof. vm_compute. repeat split. Qed.


(** Cost 160 and market value 183: the quotient [23 / 160 * 100 * 100] is
    a double just below 1437.5, so the total HPR is 14.37 (the exact
    value 14.375 would round to 14.38). *)
Example total_hpr_cost_160_market_183 :
  let df := [{| F64.Value_At_Cost := 160;
                F64.Value_At_Market_Price := 183 |}] in
  F64.total_hpr F64.sum_in_order df = 14.37%float ∧
  F64.total_hpr_checked F64.sum_in_order df = Some 14.37%float ∧
  ((183 - 160) / 160 * 100 * 100 <? 1437.5)%float = true.
Proof. vm_compute. repeat split. Qed.

(** The scenarios of the specification: rows (1000, 1200) and (500, 500)
    give 13.33; the only row (0, 500) gives 0. *)
Example total_hpr_scenarios :
  F64.total_hpr F64.sum_in_order
    [{| F64.Value_At_Cost := 1000; F64.Value_At_Market_Price := 1200 |};
     {| F64.Value_At_Cost := 500; F64.Value_At_Market_Price := 500 |}]
    = 13.33%float ∧
  F64.total_hpr F64.sum_in_order
    [{| F64.Value_At_Cost := 0; F64.Value_At_Market_Price := 500 |}]
    = 0%float.
Proof. vm_compute. repeat split. Qed.

(** A total investment that is not zero need not be a number: two costs
    of 1e308 add up to an infinity, and the total HPR is [NaN]. *)
Example total_hpr_overflow :
  is_nan (F64.total_hpr F64.sum_in_order
    [{| F64.Value_At_Cost := 1e308; F64.Value_At_Market_Price := 1e308 |};
     {| F64.Value_At_Cost := 1e308; F64.Value_At_Market_Price := 1e308 |}])
    = true.
Proof. vm_compute. reflexivity. Qed.


End TotalLine.

(** ** The HPR of a row on binary64 *)

Section RowHPR.

Import PrimFloat FloatOps SpecFloat FloatAxioms.

Local Set Warnings "-inexact-float".

Lemma Prim2SF_100 : ∃ m e, Prim2SF 100 = S754_finite false m e.
Proof. eexists _, _. vm_compute. reflexivity. Qed.

Lemma eqb_0_zero (x : float) :
  (x =? 0)%float = true -> ∃ s, Prim2SF x = S754_zero s.
Proof.
  rewrite eqb_spec. change (Prim2SF 0) with (S754_zero false).
  destruct (Prim2SF x) as [s | s | | s m e]; try done;
    [by exists s | by destruct s | by destruct s].
Qed.

(** A double that is neither [NaN] nor a zero is an infinity or a finite
    non-zero number, of the sign that [get_sign] gives. *)
Lemma number_nonzero (x : float) :
  is_nan x = false -> (x =? 0)%float = false ->
  Prim2SF x = S754_infinity (get_sign x) ∨
  ∃ m e, Prim2SF x = S754_finite (get_sign x) m e.
Proof.
  unfold is_nan, get_sign, is_zero. change zero with 0%float.
  intros Hn Hz. rewrite Hz.
  revert Hn Hz. rewrite ltb_spec, !eqb_spec.
  change (Prim2SF 0) with (S754_zero false).
  destruct (Prim2SF x) as [s | s | | s m e]; try done; intros _ _.
  - left. by destruct s.
  - right. exists m, e. by destruct s.
Qed.

Lemma get_sign_zero (x : float) (s : bool) :
  Prim2SF x = S754_zero s -> get_sign x = s.
Proof.
  intros Hx. unfold get_sign, is_zero. change zero with 0%float.
  rewrite eqb_spec, Hx. change (Prim2SF 0) with (S754_zero false). simpl.
  rewrite ltb_spec, div_spec, Hx.
  change (Prim2SF 0) with (S754_zero false).
  assert (∃ m e, Prim2SF one = S754_finite false m e) as (m & e & ->)
    by (eexists _, _; vm_compute; reflexivity).
  by destruct s.
Qed.

Lemma rint_infinity (x : float) (s : bool) :
  Prim2SF x = S754_infinity s -> F64.rint x = x.
Proof. unfold F64.rint. by intros ->. Qed.

Lemma round2_infinity (x : float) (s : bool) :
  Prim2SF x = S754_infinity s -> Prim2SF (F64.round2 x) = S754_infinity s.
Proof.
  intros Hx. destruct Prim2SF_100 as (m & e & H100).
  assert (Prim2SF (x * 100)%float = S754_infinity s) as Hm.
  { rewrite mul_spec, Hx, H100. simpl. by destruct s. }
  unfold F64.round2. rewrite (rint_infinity _ s Hm).
  rewrite div_spec, Hm, H100. simpl. by destruct s.
Qed.

(** X8: on binary64, a row whose cost is zero (of either sign) and whose
    market value is a number other than zero has an infinite HPR, never
    [0]: [+inf] when the market value and the zero have the same sign,
    [-inf] otherwise. *)
Theorem row_hpr_infinite_at_zero_cost (r : F64.Amounts) :
  (F64.Value_At_Cost r =? 0)%float = true ->
  is_nan (F64.Value_At_Market_Price r) = false ->
  (F64.Value_At_Market_Price r =? 0)%float = false ->
  F64.row_hpr r =
    if xorb (get_sign (F64.Value_At_Market_Price r))
            (get_sign (F64.Value_At_Cost r))
    then neg_infinity else infinity.
Proof.
  destruct r as [c v]. simpl. intros Hc Hn Hv.
  apply eqb_0_zero in Hc as [sc Hc]. rewrite (get_sign_zero c sc Hc).
  pose proof (number_nonzero v Hn Hv) as Hs.
  destruct Prim2SF_100 as (m100 & e100 & H100).
  assert (Prim2SF ((v - c) / c * 100)%float
          = S754_infinity (xorb (get_sign v) sc)) as Hx.
  { rewrite mul_spec, div_spec, sub_spec, Hc, H100.
    destruct Hs as [-> | (m & e & ->)]; simpl;
      by destruct (xorb (get_sign v) sc). }
  apply round2_infinity in Hx.
  unfold F64.row_hpr. simpl.
  assert (is_nan (F64.round2 ((v - c) / c * 100)%float) = false) as ->.
  { unfold is_nan. rewrite eqb_spec, Hx. by destruct (xorb _ sc). }
  rewrite <- (SF2Prim_Prim2SF (F64.round2 _)), Hx.
  by destruct (xorb _ sc).
Qed.

Lemma row_hpr_infinite_at_zero_cost_witness :
  F64.row_hpr {| F64.Value_At_Cost := 0; F64.Value_At_Market_Price := 500 |}
    = infinity.
Proof.
  exact (row_hpr_infinite_at_zero_cost
           {| F64.Value_At_Cost := 0; F64.Value_At_Market_Price := 500 |}
           eq_refl eq_refl eq_refl).
Defined.

(** The other rows: [0 / 0] and a missing cell give [0]; a cost of
    [-0.0] under a positive market value gives [-inf]; an infinite HPR
    also comes from overflow, at a cost that is not zero. *)
Example row_hpr_examples :
  F64.row_hpr {| F64.Value_At_Cost := 0; F64.Value_At_Market_Price := 0 |}
    = 0%float ∧
  F64.row_hpr {| F64.Value_At_Cost := nan; F64.Value_At_Market_Price := 5 |}
    = 0%float ∧
  F64.row_hpr {| F64.Value_At_Cost := -0; F64.Value_At_Market_Price := 500 |}
    = neg_infinity ∧
  F64.row_hpr {| F64.Value_At_Cost := 1; F64.Value_At_Market_Price := 1e307 |}
    = infinity ∧
  F64.row_hpr {| F64.Value_At_Cost := 160; F64.Value_At_Market_Price := 183 |}
    = 14.37%float.
Proof. vm_compute. repeat split. Qed.

End RowHPR.

(** ** Grouping *)

Section Groupby.

Variable column : EnrichedHolding -> cell.

(** A group holds exactly the rows of its key, in table order, and there
    is a group only for a key that some row has. *)
Lemma groupby_lookup (df : list EnrichedHolding) (k : string) :
  groupby column df !! k =
    let rows := filter (λ r, column r = Some k) df in
    if decide (rows = []) then None else Some rows.
Proof.
  induction df as [| r rest IH]; simpl; [done |].
  destruct (column r) as [k' |] eqn:Hr.
  - rewrite lookup_insert. destruct (decide (k' = k)) as [-> | Hne].
    + rewrite filter_cons_True by done. rewrite decide_False by done.
      rewrite IH. simpl. by destruct (decide _) as [-> |].
    + rewrite filter_cons_False by congruence. apply IH.
  - rewrite filter_cons_False by (rewrite Hr; discriminate). apply IH.
Qed.

Lemma groupby_lookup_Some (df : list EnrichedHolding) (k : string) rows :
  groupby column df !! k = Some rows ->
  rows = filter (λ r, column r = Some k) df ∧ rows ≠ [].
Proof.
  rewrite groupby_lookup. simpl. destruct (decide _); [done |].
  by intros [= <-].
Qed.

Lemma groupby_dom (df : list EnrichedHolding) :
  dom (groupby column df) = list_to_set (omap column df).
Proof.
  apply set_eq. intros k.
  rewrite elem_of_dom, elem_of_list_to_set, list_elem_of_omap, groupby_lookup.
  simpl. destruct (decide _) as [Hnil | Hne].
  - split; [by intros [? ?] |]. intros (r & Hin & Hk).
    assert (r ∈ filter (λ r, column r = Some k) df) as Hf
      by by apply list_elem_of_filter.
    rewrite Hnil in Hf. by apply not_elem_of_nil in Hf.
  - split; [| by eauto]. intros _.
    destruct (filter (λ r, column r = Some k) df) as [| r l] eqn:Hf; [done |].
    assert (r ∈ filter (λ r, column r = Some k) df) as Hin
      by (rewrite Hf; left).
    apply list_elem_of_filter in Hin as [? ?]. eauto.
Qed.

(** The rows without a key can be taken out before grouping. *)
Lemma groupby_dropna (df : list EnrichedHolding) :
  groupby column df = groupby column (filter (λ r, is_Some (column r)) df).
Proof.
  induction df as [| r rest IH]; simpl; [done |].
  destruct (column r) as [k |] eqn:Hr.
  - rewrite filter_cons_True by (rewrite Hr; eauto). simpl.
    by rewrite Hr, <- IH.
  - rewrite filter_cons_False; [done |]. rewrite Hr. by intros [? ?].
Qed.

End Groupby.

(** ** Sums *)

Lemma nansum_cons (x : num) (l : list num) :
  nansum (x :: l) = nanadd x (nansum l).
Proof.
  unfold nansum, nanadd. destruct x; simpl;
    rewrite ?filter_cons_True, ?filter_cons_False by done; done.
Qed.


(** [Series.sum()] of the exact model is the sum of the cells with the
    missing ones taken as [0]. *)
Lemma nansum_column_total (l : list num) :
  nansum l = column_total add zero (fillna0 <$> l).
Proof.
  induction l as [| x l IH]; [done |].
  rewrite nansum_cons, IH. unfold nanadd, fillna0. simpl.
  destruct (is_nan x); [by rewrite add_zero_l | done].
Qed.

(** ** Groups and sums *)

(** The groups, one after the other, are the rows that have a key: each
    of them once, and no other row. *)
Lemma groupby_rows (column : EnrichedHolding -> cell)
    (df : list EnrichedHolding) :
  mjoin (map_to_list (groupby column df)).*2 ≡ₚ keyed_rows column df.
Proof.
  unfold keyed_rows. induction df as [| r rest IH]; simpl.
  - by rewrite map_to_list_empty.
  - destruct (column r) as [k |] eqn:Hr.
    + rewrite filter_cons_True by (rewrite Hr; eauto). rewrite <- IH.
      destruct (groupby column rest !! k) as [rows |] eqn:Hk; simpl.
      * rewrite <- insert_delete_eq.
        rewrite map_to_list_insert by apply lookup_delete_eq.
        rewrite <- (map_to_list_delete (groupby column rest) k rows Hk).
        done.
      * by rewrite map_to_list_insert by done.
    + rewrite filter_cons_False; [done |]. rewrite Hr. by intros [? ?].
Qed.

Lemma keyed_rows_all (column : EnrichedHolding -> cell)
    (df : list EnrichedHolding) :
  Forall (λ r, is_Some (column r)) df -> keyed_rows column df = df.
Proof.
  unfold keyed_rows. induction 1 as [| r l Hr _ IH]; [done |].
  by rewrite filter_cons_True, IH by done.
Qed.

Section Conservation.

Context {M : Type} (op : M -> M -> M) (unit : M).
Context `{!Assoc (=) op, !Comm (=) op, !LeftId (=) unit op}.

Lemma column_total_app (l1 l2 : list M) :
  column_total op unit (l1 ++ l2)
    = op (column_total op unit l1) (column_total op unit l2).
Proof.
  unfold column_total. induction l1 as [| x l1 IH]; simpl.
  - by rewrite (left_id unit op).
  - by rewrite IH, (assoc op).
Qed.

Lemma column_total_mjoin {A} (amount : A -> M) (groups : list (list A)) :
  foldr (λ rows acc, op (column_total op unit (amount <$> rows)) acc)
        unit groups
    = column_total op unit (amount <$> mjoin groups).
Proof.
  induction groups as [| rows groups IH]; [done |].
  simpl. by rewrite IH, fmap_app, column_total_app.
Qed.

Lemma column_total_perm (l1 l2 : list M) :
  l1 ≡ₚ l2 -> column_total op unit l1 = column_total op unit l2.
Proof.
  intros Hl. unfold column_total.
  by apply (foldr_permutation_proper' (=) op unit).
Qed.

(** Added up with an associative and commutative addition, the totals of
    the groups give the total of the rows that have a key. *)
Lemma group_totals_conservation (column : EnrichedHolding -> cell)
    (amount : EnrichedHolding -> M) (df : list EnrichedHolding) :
  table_total op unit (group_totals op unit column amount df)
    = column_total op unit (amount <$> keyed_rows column df).
Proof.
  unfold table_total, group_totals.
  rewrite map_fold_foldr, map_to_list_fmap.
  transitivity
    (foldr (λ rows acc, op (column_total op unit (amount <$> rows)) acc)
           unit (map_to_list (groupby column df)).*2).
  { induction (map_to_list (groupby column df)) as [| [k rows] l IH];
      [done |]. simpl. f_equal. exact IH. }
  rewrite column_total_mjoin. apply column_total_perm.
  by rewrite groupby_rows.
Qed.

End Conservation.

Global Instance add_Assoc : Assoc (=) add := add_assoc.
Global Instance add_Comm : Comm (=) add := add_comm.
Global Instance add_LeftId : LeftId (=) zero add := add_zero_l.

(** ** The summary table *)

(** Every row of the summary table carries the sums of its group and the
    HPR computed from these two sums. *)
Lemma summary_table_lookup (column : EnrichedHolding -> cell)
    (df : list EnrichedHolding) (k : string) (row : SummaryRow) :
  summary_table column df !! k = Some row ->
  let rows := filter (λ r, column r = Some k) df in
  Investment row = total_investment rows ∧
  Current_Value row = total_current_value rows ∧
  Summary_HPR row = fillna0 (hpr_expr (Current_Value row) (Investment row)).
Proof.
  unfold summary_table. rewrite lookup_fmap.
  destruct (groupby column df !! k) as [rows |] eqn:Hk; [| done].
  apply groupby_lookup_Some in Hk as [-> _]. by intros [= <-].
Qed.

(** Where the expression has a value, the group HPR is that value,
    computed from the summed columns. *)
Lemma summary_hpr_formula (column : EnrichedHolding -> cell)
    (df : list EnrichedHolding) (k : string) (row : SummaryRow) :
  summary_table column df !! k = Some row ->
  hpr_expr (Current_Value row) (Investment row) ≠ NaN ->
  Summary_HPR row =
    round2 (mul (div (sub (Current_Value row) (Investment row))
                     (Investment row)) (of_Z 100)).
Proof.
  intros Hk Hne. apply summary_table_lookup in Hk as (_ & _ & ->).
  by apply fillna0_not_nan.
Qed.

(** Two rows of one broker, of cost 1000 and 500: the group HPR is 13.33,
    the mean of the two row HPRs (20 and 0) is 10. *)
Example summary_hpr_is_not_the_mean :
  let df := [broker_row (Some "B1"%string) 1000 1200;
             broker_row (Some "B1"%string) 500 500] in
  summary_table (summarize_by_options ByBroker) df !! "B1"%string =
    Some {| Investment := of_Z 1500; Current_Value := of_Z 1700;
            Summary_HPR := Fin (Q2Qc (1333 # 100)) |} /\
  mean (HPR <$> df) = of_Z 10.
Proof. num_eval. Qed.

(** C2: a group whose summed investment is [0] and whose summed market
    value is [500] gets an infinite group HPR, where the claim (and the
    comment on the [fillna] line) promise [0]. *)
Theorem summary_hpr_investment_0_current_500 :
  summary_table (summarize_by_options ByBroker)
      [broker_row (Some "B1"%string) 0 500] !! "B1"%string =
    Some {| Investment := zero; Current_Value := of_Z 500;
            Summary_HPR := PInf |}.
Proof. num_eval. Qed.

(** C4, as stated, fails: one row without a broker, of cost 100, is in no
    group, so the groups sum up to 0 while the total investment is 100. *)
Lemma conservation_fails_on_missing_key :
  let df := [broker_row None 100 120] in
  column_sum Investment (summary_table (summarize_by_options ByBroker) df)
    = zero /\
  total_investment df = of_Z 100 /\
  column_sum Investment (summary_table (summarize_by_options ByBroker) df)
    ≠ total_investment df.
Proof. num_eval. Qed.

(** C4, amended: for every grouping dimension, the groups of the
    aggregate table are the rows of the filtered set whose grouping key is
    not missing: each group holds the rows of its key, and together the
    groups hold every keyed row once and nothing else.  Hence, for amounts
    of any type added by an associative and commutative addition with a
    zero (an exact addition), the per-group totals add up to the total of
    the keyed rows, which are all the rows when no key is missing. *)
Theorem groups_conserve_keyed_rows (d : dimension)
    (filtered_df : list EnrichedHolding) :
  let column := summarize_by_options d in
  let groups := groupby column filtered_df in
  let keyed := keyed_rows column filtered_df in
  (∀ k rows, groups !! k = Some rows ->
     rows = filter (λ r, column r = Some k) filtered_df) ∧
  mjoin (map_to_list groups).*2 ≡ₚ keyed ∧
  (Forall (λ r, is_Some (column r)) filtered_df -> keyed = filtered_df) ∧
  ∀ (M : Type) (op : M -> M -> M) (unit : M)
    (amount : EnrichedHolding -> M),
    Assoc (=) op -> Comm (=) op -> LeftId (=) unit op ->
    table_total op unit (group_totals op unit column amount filtered_df)
      = column_total op unit (amount <$> keyed).
Proof.
  simpl. split_and!.
  - intros k rows Hk. by apply groupby_lookup_Some in Hk as [? _].
  - apply groupby_rows.
  - apply keyed_rows_all.
  - intros M op unit amount ? ? ?. by apply group_totals_conservation.
Qed.

(** Four rows, one of them without a broker: the totals of the two
    groups, in whole rupees, add up to the 251 of the three keyed rows. *)
Lemma groups_conserve_keyed_rows_witness :
  let df := [broker_row None 100 120; broker_row (Some "B1"%string) 200 210;
             broker_row (Some "B2"%string) 50 40;
             broker_row (Some "B1"%string) 1 2] in
  let column := summarize_by_options ByBroker in
  table_total Z.add 0 (group_totals Z.add 0 column whole_cost df)
    = column_total Z.add 0 (whole_cost <$> keyed_rows column df) ∧
  column_total Z.add 0 (whole_cost <$> keyed_rows column df) = 251.
Proof.
  split; [| vm_compute; reflexivity].
  apply (groups_conserve_keyed_rows ByBroker); apply _.
Defined.

(** The per-group [Investment] of the summary table and the allocation
    series of the exact model are such group totals, of the cost with a
    missing cell taken as [0]. *)
Lemma summary_table_group_totals (column : EnrichedHolding -> cell)
    (df : list EnrichedHolding) :
  Investment <$> summary_table column df
    = group_totals add zero column
        (fillna0 ∘ Value_At_Cost ∘ holding) df ∧
  allocation_data column df
    = group_totals add zero column
        (fillna0 ∘ Value_At_Cost ∘ holding) df.
Proof.
  unfold summary_table, allocation_data, group_totals.
  rewrite <- map_fmap_compose.
  split; apply map_fmap_ext; intros k rows _; simpl;
    unfold total_investment; by rewrite nansum_column_total, <- list_fmap_compose.
Qed.

(** Where every sum is exact, as in the arithmetic of [Num], this is the
    conservation law over the rows that have a key. *)
Corollary conservation_in_exact_arithmetic (column : EnrichedHolding -> cell)
    (df : list EnrichedHolding) :
  column_sum Investment (summary_table column df)
    = total_investment (keyed_rows column df) ∧
  column_sum id (allocation_data column df)
    = total_investment (keyed_rows column df).
Proof.
  destruct (summary_table_group_totals column df) as [H1 H2].
  assert (total_investment (keyed_rows column df)
          = table_total add zero
              (group_totals add zero column
                 (fillna0 ∘ Value_At_Cost ∘ holding) df)) as ->.
  { rewrite group_totals_conservation by apply _. unfold total_investment.
    by rewrite nansum_column_total, <- list_fmap_compose. }
  split.
  - rewrite <- H1. unfold column_sum, table_total. by rewrite map_fold_fmap.
  - by rewrite <- H2.
Qed.

(** So it is for [int64] amounts, whose addition wraps around. *)
Corollary conservation_in_int64 (column : EnrichedHolding -> cell)
    (df : list EnrichedHolding) :
  table_total ZmodDef.Zmod.add ZmodDef.Zmod.zero
      (group_totals ZmodDef.Zmod.add ZmodDef.Zmod.zero column int64_cost df)
    = column_total ZmodDef.Zmod.add ZmodDef.Zmod.zero
        (int64_cost <$> keyed_rows column df).
Proof.
  apply group_totals_conservation.
  - intros x y z. apply ZmodBase.Zmod.add_assoc.
  - intros x y. apply ZmodBase.Zmod.add_comm.
  - intros x. apply ZmodBase.Zmod.add_0_l.
Qed.

(** The addition of binary64 is not associative, and there the law fails
    even when every row has a key: of the amounts 0.1 and 0.2 of one
    broker and 0.3 of another, the group totals add up to
    0.6000000000000001, the column to 0.6. *)
Example conservation_fails_in_binary64 :
  let df := [broker_row (Some "B1"%string) 1 1;
             broker_row (Some "B1"%string) 2 2;
             broker_row (Some "B2"%string) 3 3] in
  let column := summarize_by_options ByBroker in
  let groups :=
    table_total PrimFloat.add PrimFloat.zero
      (group_totals PrimFloat.add PrimFloat.zero column tenths_cost df) in
  let total :=
    column_total PrimFloat.add PrimFloat.zero (tenths_cost <$> df) in
  keyed_rows column df = df ∧
  PrimFloat.eqb groups total = false ∧
  PrimFloat.ltb total groups = true.
Proof. vm_compute. repeat split. Qed.

(** C10: the keys of the summary table and of the allocation series are
    exactly the non-missing values of the grouping column; each group is
    made of the rows that carry its key, so a row without a key is in no
    group; and both tables are what they would be without these rows. *)
Theorem groupby_drops_missing_keys (d : dimension)
    (filtered_df : list EnrichedHolding) :
  let column := summarize_by_options d in
  let keyed := filter (λ r, is_Some (column r)) filtered_df in
  dom (summary_table column filtered_df)
    = list_to_set (omap column filtered_df) ∧
  dom (allocation_data column filtered_df)
    = list_to_set (omap column filtered_df) ∧
  (∀ k rows, groupby column filtered_df !! k = Some rows ->
     rows = filter (λ r, column r = Some k) filtered_df) ∧
  summary_table column filtered_df = summary_table column keyed ∧
  allocation_data column filtered_df = allocation_data column keyed.
Proof.
  simpl. unfold summary_table, allocation_data.
  rewrite !dom_fmap_L, <- !groupby_dropna, groupby_dom.
  repeat split. intros k rows Hk. by apply groupby_lookup_Some in Hk as [? _].
Qed.

(** A row without a broker next to a row with one: only the second shows
    in the table grouped by broker. *)
Example groupby_missing_broker :
  summary_table (summarize_by_options ByBroker)
      [broker_row None 100 120; broker_row (Some "B1"%string) 200 210]
  = summary_table (summarize_by_options ByBroker)
      [broker_row (Some "B1"%string) 200 210].
Proof. reflexivity. Qed.

(** ** Filters *)

Lemma select_filter (column : EnrichedHolding -> cell) (selected : cell)
    (df : list EnrichedHolding) :
  select column selected df = filter (keeps column selected) df.
Proof.
  unfold select, keeps. destruct (decide (selected ≠ Some "All"%string)) as [Hs | Hs].
  - apply list_filter_iff. naive_solver.
  - induction df as [| r l IH]; [done |].
    rewrite filter_cons_True by done. by rewrite <- IH.
Qed.

(** The four successive selections are one filter by the conjunction of
    the four tests. *)
Lemma apply_filters_filter (sel : FilterSelection) (df : list EnrichedHolding) :
  apply_filters sel df =
    filter (λ r, keeps (Broker ∘ holding) (selected_broker sel) r ∧
                 keeps Sector_Display_Name (selected_sector sel) r ∧
                 keeps Member_Name (selected_member sel) r ∧
                 keeps (Portfolio ∘ holding) (selected_portfolio sel) r) df.
Proof.
  unfold apply_filters. cbv zeta.
  rewrite !select_filter, !list_filter_filter.
  apply list_filter_iff. tauto.
Qed.

Lemma passes_keeps (sel : FilterSelection) (r : EnrichedHolding) :
  passes sel r <->
  keeps (Broker ∘ holding) (selected_broker sel) r ∧
  keeps Sector_Display_Name (selected_sector sel) r ∧
  keeps Member_Name (selected_member sel) r ∧
  keeps (Portfolio ∘ holding) (selected_portfolio sel) r.
Proof.
  unfold passes, keeps, cell_eq. split.
  - intros H. split_and!; intros Hd;
      [ destruct (H OnBroker Hd) as (s & Hf & Hs)
      | destruct (H OnSector Hd) as (s & Hf & Hs)
      | destruct (H OnMember Hd) as (s & Hf & Hs)
      | destruct (H OnPortfolio Hd) as (s & Hf & Hs) ];
      simpl in *; rewrite Hf, Hs; eauto.
  - intros (Hb & Hs & Hm & Hp) d Hd.
    destruct d; simpl in *;
      [destruct (Hp Hd) as [[s Hs'] He] | destruct (Hm Hd) as [[s Hs'] He]
      | destruct (Hs Hd) as [[s Hs'] He] | destruct (Hb Hd) as [[s Hs'] He]];
      exists s; simpl in *; split; congruence.
Qed.

(** C6: the filter output is the input filtered, in order, by the
    conjunction of the four dimension tests; its rows are exactly the input
    rows whose field, for every dimension whose selection is not All, is
    the selected string. *)
Theorem apply_filters_exact (sel : FilterSelection) (df : list EnrichedHolding) :
  apply_filters sel df =
    filter (λ r, keeps (Broker ∘ holding) (selected_broker sel) r ∧
                 keeps Sector_Display_Name (selected_sector sel) r ∧
                 keeps Member_Name (selected_member sel) r ∧
                 keeps (Portfolio ∘ holding) (selected_portfolio sel) r) df ∧
  ∀ r, r ∈ apply_filters sel df <-> r ∈ df ∧ passes sel r.
Proof.
  split; [apply apply_filters_filter |].
  intros r. rewrite apply_filters_filter, list_elem_of_filter, passes_keeps.
  tauto.
Qed.

(** String equality is case-sensitive: selecting the broker ["Zerodha"]
    drops a row of broker ["zerodha"]. *)
Example apply_filters_case_sensitive :
  let sel := {| selected_portfolio := Some "All"%string;
                selected_member := Some "All"%string;
                selected_sector := Some "All"%string;
                selected_broker := Some "Zerodha"%string |} in
  apply_filters sel [broker_row (Some "zerodha"%string) 100 120;
                     broker_row (Some "Zerodha"%string) 200 210]
  = [broker_row (Some "Zerodha"%string) 200 210].
Proof. reflexivity. Qed.

(** C7: filtering twice with one selection is filtering once. *)
Theorem apply_filters_idempotent (sel : FilterSelection)
    (df : list EnrichedHolding) :
  apply_filters sel (apply_filters sel df) = apply_filters sel df.
Proof.
  rewrite !apply_filters_filter, list_filter_filter.
  apply list_filter_iff. tauto.
Qed.

(** ** Localization *)

Lemma get_member_name_fallback (member_mapping : gmap string names)
    (member_code : cell) (lang : string) :
  no_value member_mapping member_code lang ->
  get_member_name member_mapping member_code lang = member_code.
Proof.
  unfold no_value, get_member_name. intros H.
  destruct member_code as [s |]; simpl; [| by rewrite lookup_empty].
  destruct (member_mapping !! s) as [entry |] eqn:Hs; simpl.
  - by rewrite (H s entry).
  - by rewrite lookup_empty.
Qed.

Lemma get_stock_name_fallback (stock_mapping : gmap string names)
    (isin_code : cell) (lang : string) :
  no_value stock_mapping isin_code lang ->
  get_stock_name stock_mapping isin_code lang = isin_code.
Proof. apply get_member_name_fallback. Qed.

(** In a sector table whose entries all have an English name, the scan
    ends without an error. *)
Lemma get_sector_name_fallback (sector_mapping : list (string * names))
    (sector_name_en : cell) (lang : string) :
  all_have_en sector_mapping ->
  sector_no_value sector_mapping sector_name_en lang ->
  get_sector_name sector_mapping sector_name_en lang = Ok sector_name_en.
Proof.
  unfold all_have_en, sector_no_value. intros Hen.
  induction Hen as [| [key value] rest [en Hv] _ IH]; intros H; [done |].
  simpl in *. rewrite Hv. destruct (decide (Some en = sector_name_en)) as [He | He].
  - rewrite (H key value); [done | left | by rewrite <- He | by rewrite Hv].
  - apply IH. intros k v Hin. apply (H k v). by right.
Qed.

(** C8, as stated, fails for the sector lookup: with an entry that has no
    English name in the table, no entry matches ["Finance"], and the lookup
    raises instead of returning ["Finance"]. *)
Lemma sector_lookup_raises_on_entry_without_en :
  let sector_mapping : list (string * names) :=
    [("fin"%string, {["ta"%string := "Nidhi"%string]})] in
  sector_no_value sector_mapping (Some "Finance"%string) "ta"%string ∧
  get_sector_name sector_mapping (Some "Finance"%string) "ta"%string
    = Raise (KeyError "en") ∧
  get_sector_name sector_mapping (Some "Finance"%string) "ta"%string
    ≠ Ok (Some "Finance"%string).
Proof.
  cbv zeta. split_and!; [| reflexivity | discriminate].
  intros key value Hin _ Hen. apply list_elem_of_singleton in Hin as [= -> ->].
  rewrite lookup_singleton_ne in Hen; discriminate.
Qed.

(** C8, amended: a member or stock lookup whose table has no entry for the
    code, or whose entry has no value for the language, returns the code;
    so does a sector lookup in a table whose entries all have an English
    name; on an empty table every lookup returns its input. *)
Theorem lookup_falls_back_to_code
    (member_mapping stock_mapping : gmap string names)
    (sector_mapping : list (string * names)) (code : cell) (lang : string) :
  (no_value member_mapping code lang ->
     get_member_name member_mapping code lang = code) ∧
  (no_value stock_mapping code lang ->
     get_stock_name stock_mapping code lang = code) ∧
  (all_have_en sector_mapping -> sector_no_value sector_mapping code lang ->
     get_sector_name sector_mapping code lang = Ok code) ∧
  get_member_name ∅ code lang = code ∧
  get_stock_name ∅ code lang = code ∧
  get_sector_name [] code lang = Ok code.
Proof.
  split_and!.
  - apply get_member_name_fallback.
  - apply get_stock_name_fallback.
  - apply get_sector_name_fallback.
  - apply get_member_name_fallback. intros s entry _. by rewrite lookup_empty.
  - apply get_stock_name_fallback. intros s entry _. by rewrite lookup_empty.
  - done.
Qed.

(** The three lookups on small tables: a member without a Tamil name, an
    ISIN that is no key, and a sector whose entry has no Tamil name. *)
Lemma lookup_falls_back_to_code_witness :
  let member_mapping : gmap string names :=
    {["M1"%string := {["en"%string := "Asha"%string]}]} in
  let sector_mapping : list (string * names) :=
    [("it"%string, {["en"%string := "IT"%string; "ta"%string := "Tha"%string]});
     ("fin"%string, {["en"%string := "Finance"%string]})] in
  get_member_name member_mapping (Some "M1"%string) "ta"%string
    = Some "M1"%string ∧
  get_stock_name ∅ (Some "INE001"%string) "ta"%string
    = Some "INE001"%string ∧
  get_sector_name sector_mapping (Some "Finance"%string) "ta"%string
    = Ok (Some "Finance"%string).
Proof.
  cbv zeta.
  pose proof (lookup_falls_back_to_code
    {["M1"%string := {["en"%string := "Asha"%string]}]} ∅
    [("it"%string, {["en"%string := "IT"%string; "ta"%string := "Tha"%string]});
     ("fin"%string, {["en"%string := "Finance"%string]})]
    (Some "M1"%string) "ta"%string) as (Hm & _).
  pose proof (lookup_falls_back_to_code ∅ ∅ [] (Some "INE001"%string)
    "ta"%string) as (_ & _ & _ & _ & Hs & _).
  pose proof (lookup_falls_back_to_code ∅ ∅
    [("it"%string, {["en"%string := "IT"%string; "ta"%string := "Tha"%string]});
     ("fin"%string, {["en"%string := "Finance"%string]})]
    (Some "Finance"%string) "ta"%string) as (_ & _ & Hsec & _).
  split_and!.
  - apply Hm. intros s entry [= <-]. rewrite lookup_singleton_eq.
    by intros [= <-].
  - exact Hs.
  - apply Hsec.
    + repeat constructor; simpl; eexists; reflexivity.
    + intros key value Hin _ Hen.
      apply list_elem_of_In in Hin. simpl in Hin.
      destruct Hin as [[= <- <-] | [[= <- <-] | []]]; [discriminate | reflexivity].
Defined.

(** ** Load *)

Section LoadFacts.

Variable parse_number : string -> option num.

Lemma clean_row_same_text (r : RawHolding) :
  same_text r (clean_row parse_number r).
Proof. by repeat split. Qed.

Lemma clean_row_numeric (c : numeric_column) (r : RawHolding) :
  numeric c (clean_row parse_number r) =
    to_numeric parse_number (raw_numeric c r).
Proof. by destruct c. Qed.

End LoadFacts.

(** C9: the load keeps every row, with its text cells, whatever the three
    numeric cells hold: a numeric cell that does not parse (or is empty)
    becomes [NaN], one that parses becomes its value; the load is a total
    function, so no cell makes it fail. *)
Theorem clean_coerces_and_keeps_rows (parse_number : string -> option num)
    (df : list RawHolding) :
  length (clean parse_number df) = length df ∧
  ∀ (i : nat) (r : RawHolding), df !! i = Some r ->
    ∃ h, clean parse_number df !! i = Some h ∧ same_text r h ∧
      ∀ c : numeric_column,
        (∀ s, raw_numeric c r = Some s -> parse_number s = None ->
              numeric c h = NaN) ∧
        (raw_numeric c r = None -> numeric c h = NaN) ∧
        (∀ s v, raw_numeric c r = Some s -> parse_number s = Some v ->
                numeric c h = v).
Proof.
  unfold clean. split; [apply length_fmap |].
  intros i r Hi. exists (clean_row parse_number r).
  split; [by rewrite list_lookup_fmap, Hi |].
  split; [apply clean_row_same_text |].
  intros c. rewrite clean_row_numeric. unfold to_numeric.
  split_and!.
  - by intros s -> ->.
  - by intros ->.
  - by intros s v -> ->.
Qed.

(** ** Formatting a percentage and reading it back *)

Lemma all_digits_string_of_uint (u : Decimal.uint) :
  all_digits (NilEmpty.string_of_uint u) = true.
Proof. induction u; simpl; auto. Qed.

Lemma digits_all_digits (n : N) : all_digits (digits n) = true.
Proof. apply all_digits_string_of_uint. Qed.

Lemma digits_nonempty (n : N) : digits n ≠ EmptyString.
Proof.
  unfold digits. destruct n as [| p]; [done |].
  simpl. pose proof (DecimalPos.Unsigned.to_uint_nonnil p) as Hp.
  destruct (Pos.to_uint p); simpl; try done.
Qed.

Lemma N_of_digits_digits (n : N) : N_of_digits (digits n) = Some n.
Proof.
  unfold N_of_digits, digits. rewrite NilEmpty.usu. simpl.
  by rewrite DecimalN.Unsigned.of_to.
Qed.

Lemma is_digit_not_special (a : ascii) :
  is_digit a = true ->
  Ascii.eqb a "." = false ∧ Ascii.eqb a "%" = false ∧
  Ascii.eqb a "-" = false ∧ Ascii.eqb a "+" = false ∧
  Ascii.eqb a "i" = false ∧ Ascii.eqb a "n" = false.
Proof.
  destruct a as [[] [] [] [] [] [] [] []]; simpl; try discriminate; done.
Qed.

Local Open Scope string_scope.

Lemma split_dot_digits (ip fp : string) :
  all_digits ip = true ->
  split_dot (ip ++ String "." fp) = (ip, Some fp).
Proof.
  induction ip as [| a r IH]; simpl; [done |].
  intros [Ha Hr]%andb_true_iff.
  destruct (is_digit_not_special a Ha) as (-> & _). by rewrite IH.
Qed.

Lemma remove_percent_digits (s : string) :
  all_digits s = true -> remove_char "%" s = s.
Proof.
  induction s as [| a r IH]; simpl; [done |].
  intros [Ha Hr]%andb_true_iff.
  destruct (is_digit_not_special a Ha) as (_ & -> & _). by rewrite IH.
Qed.

Lemma remove_char_app (c : ascii) (s t : string) :
  remove_char c (s ++ t) = remove_char c s ++ remove_char c t.
Proof.
  induction s as [| a r IH]; simpl; [done |].
  destruct (Ascii.eqb a c); simpl; by rewrite IH.
Qed.

Lemma all_digits_app (s t : string) :
  all_digits (s ++ t) = all_digits s && all_digits t.
Proof.
  induction s as [| a r IH]; simpl; [done |]. by rewrite IH, andb_assoc.
Qed.

Lemma string_length_app (s t : string) :
  String.length (s ++ t) = (String.length s + String.length t)%nat.
Proof. induction s as [| a r IH]; simpl; [done |]. by rewrite IH. Qed.

Lemma length_digits_lt_10 (d : N) : (d < 10)%N -> String.length (digits d) = 1%nat.
Proof.
  intros Hd. assert (∃ k, (k < 10)%nat ∧ d = N.of_nat k) as (k & Hk & ->).
  { exists (N.to_nat d). split; lia. }
  do 10 (destruct k as [| k]; [reflexivity |]). lia.
Qed.

Lemma N_of_two_digits (d1 d2 : N) :
  (d1 < 10)%N -> (d2 < 10)%N ->
  N_of_digits (digits d1 ++ digits d2) = Some (10 * d1 + d2)%N.
Proof.
  intros H1 H2.
  assert (∃ k, (k < 10)%nat ∧ d1 = N.of_nat k) as (k1 & Hk1 & ->).
  { exists (N.to_nat d1). split; lia. }
  assert (∃ k, (k < 10)%nat ∧ d2 = N.of_nat k) as (k2 & Hk2 & ->).
  { exists (N.to_nat d2). split; lia. }
  do 10 (destruct k1 as [| k1];
         [do 10 (destruct k2 as [| k2]; [reflexivity |]); lia |]).
  lia.
Qed.

(** What [unsigned_of_str] reads in a decimal literal with two decimals. *)
Lemma unsigned_of_str_decimal (i d1 d2 : N) :
  (d1 < 10)%N -> (d2 < 10)%N ->
  unsigned_of_str (digits i ++ "." ++ digits d1 ++ digits d2) =
    Some (Fin (Qc_of_Z (Z.of_N i)
               + Qc_of_Z (Z.of_N (10 * d1 + d2)) / Qc_of_Z 100)%Qc).
Proof.
  intros H1 H2. unfold unsigned_of_str.
  pose proof (digits_nonempty i) as Hne.
  pose proof (digits_all_digits i) as Hall.
  destruct (digits i) as [| a r] eqn:Hi; [done |].
  simpl in Hall. apply andb_true_iff in Hall as [Ha Hr].
  destruct (is_digit_not_special a Ha) as (_ & _ & _ & _ & Hi' & Hn').
  simpl String.eqb. rewrite Hi', Hn'.
  unfold decimal_of_str.
  change (String a r ++ "." ++ digits d1 ++ digits d2)
    with (String a r ++ String "." (digits d1 ++ digits d2)).
  rewrite split_dot_digits by (simpl; by rewrite Ha, Hr).
  simpl default. simpl String.eqb. simpl andb.
  rewrite <- Hi, N_of_digits_digits. simpl.
  rewrite N_of_two_digits by done. simpl.
  rewrite string_length_app, !length_digits_lt_10 by done.
  reflexivity.
Qed.

Local Open Scope Z_scope.

Lemma Qc_lt_0_num (x : Qc) : (x < 0)%Qc <-> Qnum x < 0.
Proof. unfold Qclt, Qlt. simpl. lia. Qed.

Lemma rint_nonneg (x : Qc) : ¬ (x < 0)%Qc -> 0 <= rint x.
Proof.
  rewrite Qc_lt_0_num. intros Hx. unfold rint.
  set (a := Qnum x) in *. set (b := Z.pos (Qden x)).
  assert (0 < b) by (unfold b; lia).
  assert (0 <= (2 * a + b) / (2 * b)) as Hf by (apply Z.div_pos; lia).
  destruct (_ && _) eqn:E; [| done].
  apply andb_true_iff in E as [_ Hodd].
  destruct (Z.eq_dec ((2 * a + b) / (2 * b)) 0) as [H0 | H0]; [| lia].
  rewrite H0 in Hodd. discriminate.
Qed.

Lemma rint_nonpos (x : Qc) : (x < 0)%Qc -> rint x <= 0.
Proof.
  rewrite Qc_lt_0_num. intros Hx. unfold rint.
  set (a := Qnum x) in *. set (b := Z.pos (Qden x)).
  assert (0 < b) by (unfold b; lia).
  assert ((2 * a + b) / (2 * b) < 1) as Hf
    by (apply Z.div_lt_upper_bound; lia).
  destruct (_ && _); lia.
Qed.

Lemma Qc_mul_100_neg (q : Qc) : (q * Qc_of_Z 100 < 0)%Qc <-> (q < 0)%Qc.
Proof.
  assert (0 < Qc_of_Z 100)%Qc as H100.
  { rewrite <- Z2Qc_inj_0. by apply Z2Qc_inj_lt. }
  split; intros H.
  - destruct (Qclt_le_dec q 0) as [| Hq]; [done |].
    exfalso. apply (Qclt_not_le _ _ H).
    rewrite <- (Qcmult_0_l (Qc_of_Z 100)).
    apply Qcmult_le_compat_r; [done | by apply Qclt_le_weak].
  - rewrite <- (Qcmult_0_l (Qc_of_Z 100)). by apply Qcmult_lt_compat_r.
Qed.

Local Open Scope string_scope.

Lemma float_of_str_digit_first (a : ascii) (r : string) :
  is_digit a = true ->
  float_of_str (String a r) = unsigned_of_str (String a r).
Proof.
  destruct a as [[] [] [] [] [] [] [] []]; simpl; try discriminate; done.
Qed.

(** The hundredths of a value, split into the printed parts. *)
Lemma cents_split (n : N) :
  (Z.of_N n = 100 * Z.of_N (n / 100)
              + Z.of_N (10 * (n mod 100 / 10) + n mod 10))%Z.
Proof.
  pose proof (N.div_mod n 100 ltac:(discriminate)).
  pose proof (N.mod_lt n 100 ltac:(discriminate)).
  pose proof (N.div_mod (n mod 100) 10 ltac:(discriminate)).
  pose proof (N.mod_lt (n mod 100) 10 ltac:(discriminate)).
  pose proof (N.div_mod n 10 ltac:(discriminate)).
  pose proof (N.mod_lt n 10 ltac:(discriminate)).
  generalize dependent (n mod 100 / 10)%N.
  generalize dependent (n mod 100 mod 10)%N.
  generalize dependent (n mod 100)%N. generalize dependent (n / 100)%N.
  generalize dependent (n mod 10)%N. generalize dependent (n / 10)%N.
  intros. lia.
Qed.

Lemma Qc_100_ne_0 : Qc_of_Z 100 ≠ 0%Qc.
Proof. rewrite <- Z2Qc_inj_0. intros H. by apply Z2Qc_inj in H. Qed.

Lemma decimal_value (c : Z) (n : N) :
  Z.of_N n = c ->
  (Qc_of_Z (Z.of_N (n / 100))
   + Qc_of_Z (Z.of_N (10 * (n mod 100 / 10) + n mod 10)) / Qc_of_Z 100)%Qc
  = (Qc_of_Z c / Qc_of_Z 100)%Qc.
Proof.
  intros <-. rewrite (cents_split n) at 1.
  rewrite Z2Qc_inj_add, Z2Qc_inj_mul.
  field. apply Qc_100_ne_0.
Qed.

(** Parsing the formatted value gives the value rounded to hundredths. *)
Lemma float_of_format_2f (x : num) :
  float_of_str (format_2f x) = Some (round2 x).
Proof.
  destruct x as [| | | q]; try reflexivity.
  unfold format_2f, round2.
  set (c := rint (q * Qc_of_Z 100)).
  set (n := Z.to_N (Z.abs c)).
  assert (n mod 100 / 10 < 10)%N as H1.
  { apply N.Div0.div_lt_upper_bound. apply (N.mod_lt n 100). done. }
  assert (n mod 10 < 10)%N as H2 by (by apply N.mod_lt).
  destruct (bool_decide (q < 0)%Qc) eqn:Hq.
  - apply bool_decide_eq_true in Hq.
    assert (c <= 0)%Z as Hc by (by apply rint_nonpos, Qc_mul_100_neg).
    change ("-" ++ ?s) with (String "-" s). cbn [float_of_str].
    change (float_of_str (String "-" ?s)) with (neg <$> unsigned_of_str s).
    rewrite unsigned_of_str_decimal by done. simpl. do 2 f_equal.
    rewrite (decimal_value (- c) n) by (unfold n; lia).
    rewrite Z2Qc_inj_opp.
    field. apply Qc_100_ne_0.
  - apply bool_decide_eq_false in Hq.
    assert (0 <= c)%Z as Hc.
    { apply rint_nonneg. by rewrite Qc_mul_100_neg. }
    change ("" ++ ?s) with s.
    pose proof (digits_nonempty (n / 100)) as Hne.
    pose proof (digits_all_digits (n / 100)) as Hall.
    destruct (digits (n / 100)) as [| a r] eqn:Hi; [done |].
    simpl in Hall. apply andb_true_iff in Hall as [Ha _].
    change (String a r ++ ?s) with (String a (r ++ s)).
    rewrite float_of_str_digit_first by done.
    change (String a (r ++ ?s)) with (String a r ++ s).
    rewrite <- Hi, unsigned_of_str_decimal by done. do 2 f_equal.
    apply decimal_value. unfold n. lia.
Qed.

Example float_of_format_2f_examples :
  float_of_str (format_2f (Fin (Q2Qc (-1 # 1000)))) = Some zero /\
  float_of_str (format_2f (Fin (Q2Qc (-4999 # 1000)))) = Some (of_Z (-5)).
Proof. num_eval. Qed.

Lemma contains_app (c : ascii) (s t : string) :
  contains c (s ++ t) = contains c s || contains c t.
Proof.
  induction s as [| a r IH]; simpl; [done |]. by destruct (Ascii.eqb a c).
Qed.

Lemma contains_percent_digits (s : string) :
  all_digits s = true -> contains "%" s = false.
Proof.
  induction s as [| a r IH]; simpl; [done |].
  intros [Ha Hr]%andb_true_iff.
  destruct (is_digit_not_special a Ha) as (_ & -> & _). by apply IH.
Qed.

Lemma remove_char_absent (c : ascii) (s : string) :
  contains c s = false -> remove_char c s = s.
Proof.
  induction s as [| a r IH]; simpl; [done |].
  destruct (Ascii.eqb a c); [done |]. intros H. by rewrite IH.
Qed.

Lemma format_2f_no_percent (x : num) : contains "%" (format_2f x) = false.
Proof.
  destruct x as [| | | q]; try reflexivity. unfold format_2f.
  rewrite contains_app.
  assert (∀ b : bool, contains "%" (if b then "-" else "") = false) as ->
    by (by intros []).
  by rewrite !contains_app, !(contains_percent_digits (digits _))
    by apply digits_all_digits.
Qed.

Lemma string_app_empty_r (s : string) : s ++ EmptyString = s.
Proof.
  induction s as [| a r IH]; [done |].
  change (String a (r ++ EmptyString) = String a r). by rewrite IH.
Qed.

Lemma remove_percent_format_percent (x : num) :
  remove_char "%" (format_percent x) = format_2f x.
Proof.
  unfold format_percent. rewrite remove_char_app.
  rewrite remove_char_absent by apply format_2f_no_percent.
  apply string_app_empty_r.
Qed.

(** Rounding to hundredths a value that is already rounded changes
    nothing, so a column of the tables shows its own values. *)
Lemma rint_of_Z (c : Z) : rint (Qc_of_Z c) = c.
Proof.
  unfold rint. simpl.
  assert ((2 * c + 1) `div` 2 = c)%Z as Hd
    by (symmetry; apply (Z.div_unique_pos _ 2 c 1); lia).
  assert ((2 * c + 1) `mod` 2 = 1)%Z as Hm
    by (symmetry; apply (Z.mod_unique_pos _ 2 c 1); lia).
  change (2 * 1)%Z with 2%Z. by rewrite Hd, Hm.
Qed.

Lemma round2_idempotent (x : num) : round2 (round2 x) = round2 x.
Proof.
  destruct x as [| | | q]; try reflexivity. simpl. do 2 f_equal.
  set (c := rint (q * Qc_of_Z 100)).
  replace (Qc_of_Z c / Qc_of_Z 100 * Qc_of_Z 100)%Qc with (Qc_of_Z c)
    by (field; apply Qc_100_ne_0).
  by rewrite rint_of_Z.
Qed.

(** ** Highlighting *)

Lemma mapM_fmap_option {A B C} (f : B -> option C) (g : A -> B) (h : A -> C)
    (l : list A) :
  (∀ x, f (g x) = Some (h x)) -> mapM f (g <$> l) = Some (h <$> l).
Proof.
  intros H. apply mapM_Some, Forall2_fmap, Forall_Forall2_diag, Forall_forall.
  intros x _. apply H.
Qed.

(** The style of one formatted percentage in [Dashboard-Summary-canvas.py]. *)
Lemma highlight_val_formatted (x : num) :
  highlight_val (PyStr (format_percent x)) = Some (expected_style x).
Proof.
  unfold highlight_val.
  by rewrite remove_percent_format_percent, float_of_format_2f.
Qed.

(** X1: [highlight_hpr] of [Dashboard-Summary-canvas.py], applied to a
    formatted column, paints exactly the rows whose shown number is below
    zero: the rows whose value is negative, when the column holds values
    already rounded to hundredths, as the HPR columns do. *)
Lemma highlight_hpr_canvas_flags_negative (column : list num) :
  style_apply highlight_hpr_canvas (formatted_hpr column)
    = Some (expected_style <$> column) ∧
  (∀ x, x ∈ column -> round2 x = x ->
        expected_style x = if lt_zero x then light_red else ""%string) ∧
  expected_style zero = ""%string.
Proof.
  split_and!.
  - unfold style_apply, highlight_hpr_canvas, formatted_hpr.
    apply mapM_fmap_option. intros x. apply highlight_val_formatted.
  - intros x _ Hx. unfold expected_style. by rewrite Hx.
  - reflexivity.
Qed.

(** A row's HPR is a value rounded to hundredths. *)
Lemma row_hpr_rounded (h : Holding) : round2 (row_hpr h) = row_hpr h.
Proof.
  unfold row_hpr, hpr_expr.
  set (y := mul (div (sub _ _) _) _).
  pose proof (round2_idempotent y) as Hy.
  destruct (round2 y) as [| | | q] eqn:E; try done. num_eval.
Qed.

(** X21: on the detail table of [Dashboard-Summary-canvas.py], the rows
    painted light red are the rows whose HPR is negative. *)
Lemma highlight_hpr_canvas_detail (hs : list Holding) :
  style_apply highlight_hpr_canvas (formatted_hpr (row_hpr <$> hs))
    = Some ((λ h, if lt_zero (row_hpr h) then light_red else ""%string) <$> hs).
Proof.
  unfold style_apply, highlight_hpr_canvas, formatted_hpr.
  rewrite <- list_fmap_compose. apply mapM_fmap_option. intros h.
  unfold compose. rewrite highlight_val_formatted.
  unfold expected_style. by rewrite row_hpr_rounded.
Qed.

(** [highlight_hpr] of [app.py] gives every row of a column the empty
    style, whatever the column holds. *)
Lemma highlight_hpr_app_flags_nothing (column : list pyobj) :
  style_apply highlight_hpr_app column = Some ((λ _, ""%string) <$> column).
Proof. reflexivity. Qed.

(** C5: in [app.py], the row showing [-5.00%] is not flagged: the styling
    function is called with the column, tests it as if it were one string,
    and falls through to the branch that styles nothing; the sibling
    script flags that row. *)
Theorem highlight_hpr_app_misses_negative :
  formatted_hpr [of_Z (-5); of_Z 12] = [PyStr "-5.00%"; PyStr "12.00%"] ∧
  style_apply highlight_hpr_app (formatted_hpr [of_Z (-5); of_Z 12])
    = Some [""%string; ""%string] ∧
  style_apply highlight_hpr_canvas (formatted_hpr [of_Z (-5); of_Z 12])
    = Some [light_red; ""%string].
Proof. split_and!; reflexivity. Qed.

(** ** The statements above on sample inputs *)

(** Loading the sample raw row with [float_of_str] as the reader: the row
    is kept, its unreadable cost and its empty quantity are [NaN]. *)
Lemma clean_coerces_and_keeps_rows_witness :
  ∃ h, clean float_of_str [sample_raw] !! 0%nat = Some h ∧
       Value_At_Cost h = NaN ∧ Qty h = NaN ∧ Broker h = None.
Proof.
  destruct (clean_coerces_and_keeps_rows float_of_str [sample_raw])
    as [_ H].
  destruct (H 0%nat sample_raw eq_refl) as (h & Hh & Htext & Hnum).
  exists h. split; [exact Hh |]. split_and!.
  - destruct (Hnum Col_Value_At_Cost) as (Hbad & _ & _).
    apply (Hbad "abc"%string); reflexivity.
  - destruct (Hnum Col_Qty) as (_ & Hempty & _).
    apply Hempty. reflexivity.
  - destruct Htext as (_ & _ & _ & Hb & _). exact Hb.
Defined.

(** Grouping by broker a row without a broker and a row of broker ["B1"]:
    the group of ["B1"] is the second row alone. *)
Lemma groupby_drops_missing_keys_witness :
  let df := [broker_row None 100 120; broker_row (Some "B1"%string) 200 210] in
  [broker_row (Some "B1"%string) 200 210]
    = filter (λ r, summarize_by_options ByBroker r = Some "B1"%string) df.
Proof.
  cbv zeta.
  destruct (groupby_drops_missing_keys ByBroker
              [broker_row None 100 120; broker_row (Some "B1"%string) 200 210])
    as (_ & _ & Hrows & _).
  apply (Hrows "B1"%string). reflexivity.
Defined.

(** * The rest of the pipeline *)

(** ** Enrichment *)

Section EnrichFacts.

Variable member_mapping : gmap string names.
Variable sector_mapping : list (string * names).
Variable stock_mapping : gmap string names.
Variable lang : string.

Lemma enrich_cons (h : Holding) (df : list Holding) :
  enrich member_mapping sector_mapping stock_mapping lang (h :: df) =
    (r ← enrich_row member_mapping sector_mapping stock_mapping lang h;
     rs ← enrich member_mapping sector_mapping stock_mapping lang df;
     mret (r :: rs)).
Proof. reflexivity. Qed.

Lemma enrich_row_Ok (h : Holding) (r : EnrichedHolding) :
  enrich_row member_mapping sector_mapping stock_mapping lang h = Ok r ->
  enriched_from member_mapping sector_mapping stock_mapping lang h r.
Proof.
  unfold enrich_row, enriched_from.
  destruct (get_sector_name sector_mapping (Sector_Name h) lang) as [c | e];
    [| discriminate].
  intros [= <-]. simpl. done.
Qed.

Lemma enrich_Ok (df : list Holding) (rows : list EnrichedHolding) :
  enrich member_mapping sector_mapping stock_mapping lang df = Ok rows ->
  Forall2 (enriched_from member_mapping sector_mapping stock_mapping lang)
          df rows.
Proof.
  revert rows. induction df as [| h df IH]; intros rows.
  - intros [= <-]. constructor.
  - rewrite enrich_cons.
    destruct (enrich_row _ _ _ _ h) as [r | e] eqn:Hr; [| discriminate].
    destruct (enrich _ _ _ _ df) as [rs | e] eqn:Hrs; [| discriminate].
    intros [= <-]. constructor; [by apply enrich_row_Ok | by apply IH].
Qed.

Lemma get_sector_name_defined (sector_name_en : cell) :
  all_have_en sector_mapping ->
  ∃ c, get_sector_name sector_mapping sector_name_en lang = Ok c.
Proof.
  unfold all_have_en.
  induction 1 as [| [key value] rest [en Hv] _ IH]; simpl in *; [eauto |].
  rewrite Hv. destruct (decide _); eauto.
Qed.

Lemma enrich_defined (df : list Holding) :
  all_have_en sector_mapping ->
  ∃ rows, enrich member_mapping sector_mapping stock_mapping lang df = Ok rows.
Proof.
  intros Hen. induction df as [| h df [rs IH]]; [by exists [] |].
  rewrite enrich_cons, IH. unfold enrich_row.
  destruct (get_sector_name_defined (Sector_Name h) Hen) as [c ->].
  eauto.
Qed.

End EnrichFacts.

(** X3: when every entry of the sector table has an English name, the
    enrichment does not fail, and its result has one row per holding, in
    order: the holding unchanged, the three display names looked up for
    it, and its HPR. *)
Theorem enrich_row_by_row (member_mapping stock_mapping : gmap string names)
    (sector_mapping : list (string * names)) (lang : string)
    (df : list Holding) :
  all_have_en sector_mapping ->
  ∃ rows,
    enrich member_mapping sector_mapping stock_mapping lang df = Ok rows ∧
    length rows = length df ∧
    holding <$> rows = df ∧
    Forall2 (enriched_from member_mapping sector_mapping stock_mapping lang)
            df rows.
Proof.
  intros Hen.
  destruct (enrich_defined member_mapping sector_mapping stock_mapping lang
              df Hen) as [rows Hrows].
  pose proof (enrich_Ok _ _ _ _ _ _ Hrows) as Hall.
  exists rows. split_and!; [done | by rewrite (Forall2_length _ _ _ Hall) | | done].
  clear Hrows. induction Hall as [| h r df rows (Hh & _) _ IH]; [done |].
  by rewrite fmap_cons, Hh, IH.
Qed.

Lemma enrich_row_by_row_witness :
  ∃ rows,
    enrich ∅ [("fin"%string, {["en"%string := "Finance"%string]})] ∅ "ta"%string
      [holding_of (of_Z 100) (of_Z 120)] = Ok rows ∧
    length rows = 1%nat.
Proof.
  destruct (enrich_row_by_row ∅ ∅
              [("fin"%string, {["en"%string := "Finance"%string]})]
              "ta"%string [holding_of (of_Z 100) (of_Z 120)])
    as (rows & Hrows & Hlen & _).
  - repeat constructor. simpl. eexists. reflexivity.
  - exists rows. split; [exact Hrows | exact Hlen].
Defined.

(** X4: when the first entry of the sector table has no English name, the
    enrichment of every table that has a row fails with [KeyError], also
    when the rows have no sector at all. *)
Theorem enrich_fails_on_first_entry_without_en
    (member_mapping stock_mapping : gmap string names)
    (key : string) (value : names) (rest : list (string * names))
    (lang : string) (h : Holding) (df : list Holding) :
  value !! "en"%string = None ->
  enrich member_mapping ((key, value) :: rest) stock_mapping lang (h :: df)
    = Raise (KeyError "en").
Proof.
  intros Hv. rewrite enrich_cons. unfold enrich_row. simpl. by rewrite Hv.
Qed.

Lemma enrich_fails_on_first_entry_without_en_witness :
  enrich ∅ [("fin"%string, {["ta"%string := "Nidhi"%string]})] ∅ "ta"%string
    [holding_of (of_Z 100) (of_Z 120)] = Raise (KeyError "en").
Proof.
  apply (enrich_fails_on_first_entry_without_en ∅ ∅ "fin"%string
           {["ta"%string := "Nidhi"%string]} [] "ta"%string).
  reflexivity.
Defined.

(** X5: in English, the sector lookup returns the name it is given,
    whatever the table holds, as long as every entry has an English
    name. *)
Theorem get_sector_name_en_is_identity (sector_mapping : list (string * names))
    (sector_name_en : cell) :
  all_have_en sector_mapping ->
  get_sector_name sector_mapping sector_name_en "en" = Ok sector_name_en.
Proof.
  unfold all_have_en.
  induction 1 as [| [key value] rest [en Hv] _ IH]; simpl in *; [done |].
  rewrite Hv. by destruct (decide (Some en = sector_name_en)) as [<- | Hne].
Qed.

Lemma get_sector_name_en_is_identity_witness :
  get_sector_name
    [("it"%string, {["en"%string := "IT"%string; "ta"%string := "Tha"%string]})]
    (Some "IT"%string) "en" = Ok (Some "IT"%string).
Proof.
  apply get_sector_name_en_is_identity.
  repeat constructor. simpl. eexists. reflexivity.
Defined.

(** X6: with no mapping data at all (what [load_json_mapping] returns for
    an absent file), the enrichment never fails and every display name is
    the raw code of the row. *)
Theorem enrich_without_mappings (lang : string) (df : list Holding) :
  enrich ∅ [] ∅ lang df =
    Ok ((λ h, {| holding := h; Member_Name := Member_Code h;
                 Stock_Display_Name := ISIN_Code h;
                 Sector_Display_Name := Sector_Name h;
                 HPR := row_hpr h |}) <$> df).
Proof.
  induction df as [| h df IH]; [done |].
  rewrite enrich_cons, IH. unfold enrich_row. simpl.
  rewrite (get_member_name_fallback ∅), (get_stock_name_fallback ∅); [done | |];
    intros s entry _; by rewrite lookup_empty.
Qed.

(** ** What the HPR columns can hold *)

Lemma fillna0_round2_invariant (y : num) :
  fillna0 (round2 y) ≠ NaN ∧
  round2 (fillna0 (round2 y)) = fillna0 (round2 y).
Proof.
  pose proof (round2_idempotent y) as Hy.
  destruct (round2 y) as [| | | q] eqn:E; simpl; split; try done. num_eval.
Qed.

(** X7: after [fillna(0)] no HPR is missing, and every HPR is a value
    rounded to hundredths (or an infinity): in the row column and in the
    column of the summary table alike. *)
Theorem hpr_columns_filled_and_rounded :
  (∀ h : Holding,
     row_hpr h ≠ NaN ∧ round2 (row_hpr h) = row_hpr h) ∧
  (∀ (column : EnrichedHolding -> cell) (df : list EnrichedHolding)
     (k : string) (row : SummaryRow),
     summary_table column df !! k = Some row ->
     Summary_HPR row ≠ NaN ∧ round2 (Summary_HPR row) = Summary_HPR row).
Proof.
  split.
  - intros h. apply fillna0_round2_invariant.
  - intros column df k row Hk.
    apply summary_table_lookup in Hk as (_ & _ & ->).
    apply fillna0_round2_invariant.
Qed.

Lemma hpr_columns_filled_and_rounded_witness :
  Summary_HPR {| Investment := zero; Current_Value := of_Z 500;
                 Summary_HPR := PInf |} ≠ NaN.
Proof.
  destruct hpr_columns_filled_and_rounded as [_ H].
  apply (H (summarize_by_options ByBroker)
           [broker_row (Some "B1"%string) 0 500] "B1"%string).
  num_eval.
Defined.

(** ** The sidebar and the page *)

Lemma select_All (column : EnrichedHolding -> cell) (df : list EnrichedHolding) :
  select column (Some "All"%string) df = df.
Proof. unfold select. by rewrite decide_False by (by intros []). Qed.

Lemma apply_filters_select_only (d : filter_dimension) (v : cell)
    (df : list EnrichedHolding) :
  apply_filters (select_only d v) df = select (field d) v df.
Proof.
  destruct d; unfold apply_filters; simpl; rewrite ?select_All; done.
Qed.

Lemma elem_of_unique_from (seen column : list cell) (x : cell) :
  x ∈ unique_from seen column <-> x ∈ column ∧ x ∉ seen.
Proof.
  revert seen. induction column as [| y rest IH]; intros seen; simpl.
  - rewrite elem_of_nil. tauto.
  - destruct (decide (y ∈ seen)) as [Hy | Hy].
    + rewrite IH, elem_of_cons. split; [tauto |].
      intros [[-> | ?] ?]; tauto.
    + rewrite !elem_of_cons, IH, elem_of_cons.
      destruct (decide (x = y)) as [-> | Hne]; [tauto |]. tauto.
Qed.

Lemma elem_of_unique (column : list cell) (x : cell) :
  x ∈ unique column <-> x ∈ column.
Proof.
  unfold unique. rewrite elem_of_unique_from, elem_of_nil. tauto.
Qed.

Lemma unique_from_NoDup (seen column : list cell) :
  NoDup (unique_from seen column).
Proof.
  revert seen. induction column as [| y rest IH]; intros seen; simpl.
  - constructor.
  - destruct (decide (y ∈ seen)); [apply IH |].
    constructor; [| apply IH].
    rewrite elem_of_unique_from, elem_of_cons. tauto.
Qed.

(** X10: every select box lists ['All'] first and then each value of its
    column once, a missing cell included; with the selection the sidebar
    starts with, the filters keep every row, so a table that has rows is
    always shown. *)
Theorem default_selection_shows_all (df : list EnrichedHolding) :
  (∀ d, sidebar_options d df !! 0%nat = Some (selection default_selection d)) ∧
  (∀ d, NoDup (tail (sidebar_options d df)) ∧
        ∀ v, v ∈ tail (sidebar_options d df) <-> ∃ r, r ∈ df ∧ field d r = v) ∧
  apply_filters default_selection df = df ∧
  (df ≠ [] -> render default_selection df = Dashboard df).
Proof.
  split_and!.
  - by intros [].
  - intros d. simpl. split; [apply unique_from_NoDup |].
    intros v. rewrite elem_of_unique, list_elem_of_fmap.
    split; intros (r & ? & ?); exists r; done.
  - unfold apply_filters. simpl. by rewrite !select_All.
  - intros Hdf. unfold render. rewrite decide_False by done. simpl.
    unfold apply_filters. simpl. rewrite !select_All.
    by rewrite decide_False by done.
Qed.

Lemma default_selection_shows_all_witness :
  render default_selection [broker_row None 100 120]
    = Dashboard [broker_row None 100 120].
Proof.
  destruct (default_selection_shows_all [broker_row None 100 120])
    as (_ & _ & _ & H).
  apply H. discriminate.
Defined.

(** X11: choosing, in one select box, a string that the box offers (the
    other boxes left on ['All']) never gives the no-data warning: the
    dashboard shows the rows that carry that string, all rows for
    ['All']. *)
Theorem offered_option_shows_rows (d : filter_dimension)
    (df : list EnrichedHolding) (s : string) :
  Some s ∈ sidebar_options d df -> df ≠ [] ->
  ∃ filtered_df,
    render (select_only d (Some s)) df = Dashboard filtered_df ∧
    filtered_df ≠ [] ∧
    filtered_df =
      if decide (s = "All"%string) then df
      else filter (λ r, field d r = Some s) df.
Proof.
  intros Hin Hdf. unfold render. rewrite decide_False by done.
  cbv zeta. rewrite apply_filters_select_only.
  destruct (decide (s = "All"%string)) as [-> | Hs].
  - rewrite select_All. exists df. by rewrite decide_False by done.
  - assert (select (field d) (Some s) df
            = filter (λ r, field d r = Some s) df) as ->.
    { unfold select. rewrite decide_True by congruence.
      apply list_filter_iff. intros r. unfold cell_eq. split; [tauto |].
      intros ->. eauto. }
    apply elem_of_cons in Hin as [[= ->] | Hin]; [done |].
    apply elem_of_unique, list_elem_of_fmap in Hin as (r & Hr & Hin).
    assert (r ∈ filter (λ r, field d r = Some s) df) as Hf
      by (by apply list_elem_of_filter).
    assert (filter (λ r, field d r = Some s) df ≠ []) as Hne.
    { intros Hnil. rewrite Hnil in Hf. by apply elem_of_nil in Hf. }
    eexists. by rewrite decide_False by done.
Qed.

Lemma offered_option_shows_rows_witness :
  ∃ filtered_df,
    render (select_only OnBroker (Some "B1"%string))
      [broker_row None 100 120; broker_row (Some "B1"%string) 200 210]
      = Dashboard filtered_df ∧
    filtered_df ≠ [].
Proof.
  destruct (offered_option_shows_rows OnBroker
              [broker_row None 100 120; broker_row (Some "B1"%string) 200 210]
              "B1"%string) as (f & Hf & Hne & _).
  - apply (bool_decide_unpack _). vm_compute. exact I.
  - discriminate.
  - exists f. split; [exact Hf | exact Hne].
Defined.

(** X12: a select box offers a missing value exactly when a row of the
    table has none in that column, and choosing it always gives the
    no-data warning: the comparison with a missing value holds for no
    row, also not for the rows that put it in the box. *)
Theorem missing_option_gives_warning (d : filter_dimension)
    (df : list EnrichedHolding) :
  (None ∈ sidebar_options d df <-> ∃ r, r ∈ df ∧ field d r = None) ∧
  apply_filters (select_only d None) df = [] ∧
  (df ≠ [] -> render (select_only d None) df = NoDataWarning).
Proof.
  assert (apply_filters (select_only d None) df = []) as Hnil.
  { rewrite apply_filters_select_only. unfold select.
    rewrite decide_True by done.
    induction df as [| r l IH]; [done |].
    rewrite filter_cons_False; [done |].
    unfold cell_eq. intros [[s Hs] Hn]. congruence. }
  split_and!; [| done |].
  - unfold sidebar_options. rewrite elem_of_cons, elem_of_unique,
      list_elem_of_fmap. split.
    + intros [[=] | (r & ? & ?)]. exists r. done.
    + intros (r & ? & ?). right. exists r. done.
  - intros Hdf. unfold render. rewrite decide_False by done.
    cbv zeta. by rewrite Hnil.
Qed.

Lemma missing_option_gives_warning_witness :
  render (select_only OnBroker None)
    [broker_row None 100 120; broker_row (Some "B1"%string) 200 210]
    = NoDataWarning.
Proof.
  destruct (missing_option_gives_warning OnBroker
              [broker_row None 100 120; broker_row (Some "B1"%string) 200 210])
    as (_ & _ & H).
  apply H. discriminate.
Defined.

(** X13: the filters never add, change or reorder rows: their output is
    a sublist of the table, whatever the selection. *)
Theorem apply_filters_sublist (sel : FilterSelection)
    (df : list EnrichedHolding) :
  sublist (apply_filters sel df) df.
Proof. rewrite apply_filters_filter. apply sublist_filter. Qed.

(** ** Filters, summary table and chart together *)

Lemma field_filter_of (d : dimension) (r : EnrichedHolding) :
  field (filter_of d) r = summarize_by_options d r.
Proof. by destruct d. Qed.

(** X14: once a member, sector or broker is chosen in the sidebar, the
    summary table and the chart grouped by that same dimension have at
    most one row, the chosen value. *)
Theorem summary_of_selected_dimension (d : dimension) (sel : FilterSelection)
    (df : list EnrichedHolding) (s : string) :
  selection sel (filter_of d) = Some s -> s ≠ "All"%string ->
  dom (summary_table (summarize_by_options d) (apply_filters sel df)) ⊆ {[s]} ∧
  dom (allocation_data (summarize_by_options d) (apply_filters sel df)) ⊆ {[s]}.
Proof.
  intros Hsel Hs. unfold summary_table, allocation_data.
  rewrite !dom_fmap_L, groupby_dom.
  assert (list_to_set (omap (summarize_by_options d) (apply_filters sel df))
          ⊆@{gset string} {[s]}) as H; [| done].
  intros k. rewrite elem_of_list_to_set, list_elem_of_omap, elem_of_singleton.
  intros (r & Hr & Hk).
  rewrite apply_filters_filter, list_elem_of_filter in Hr.
  destruct Hr as [Hpass _]. apply passes_keeps in Hpass.
  destruct (Hpass (filter_of d)) as (s' & Hf & Hs'); [rewrite Hsel; congruence |].
  rewrite field_filter_of in Hf. congruence.
Qed.

Lemma summary_of_selected_dimension_witness :
  dom (summary_table (summarize_by_options ByBroker)
         (apply_filters (select_only OnBroker (Some "B1"%string))
            [broker_row (Some "B2"%string) 100 120;
             broker_row (Some "B1"%string) 200 210]))
    ⊆ {["B1"%string]}.
Proof.
  destruct (summary_of_selected_dimension ByBroker
              (select_only OnBroker (Some "B1"%string))
              [broker_row (Some "B2"%string) 100 120;
               broker_row (Some "B1"%string) 200 210] "B1"%string)
    as [H _]; [reflexivity | discriminate | exact H].
Defined.

(** X15: grouped by the same column, the values of the chart are the
    Investment column of the summary table, key by key. *)
Theorem allocation_is_investment_column (column : EnrichedHolding -> cell)
    (filtered_df : list EnrichedHolding) :
  allocation_data column filtered_df
    = Investment <$> summary_table column filtered_df.
Proof.
  unfold allocation_data, summary_table. by rewrite <- map_fmap_compose.
Qed.



(** ** Currency strings *)

Lemma remove_char_filter (c : ascii) (s : string) :
  remove_char c s =
    string_of_list_ascii (filter (λ a, a ≠ c) (list_ascii_of_string s)).
Proof.
  induction s as [| a r IH]; simpl; [done |].
  destruct (Ascii.eqb_spec a c) as [-> | Hne].
  - by rewrite filter_cons_False by (by intros []).
  - rewrite filter_cons_True by done. simpl. by rewrite IH.
Qed.

Lemma filter_group3 (n : nat) (l : list ascii) :
  (length l <= n)%nat ->
  filter (λ a, a ≠ ","%char) (group3 l) = filter (λ a, a ≠ ","%char) l.
Proof.
  revert l. induction n as [| n IH]; intros l Hl.
  - by destruct l; [| simpl in Hl; lia].
  - destruct l as [| a [| b [| c [| d more]]]]; try done.
    change (group3 (a :: b :: c :: d :: more))
      with (a :: b :: c :: ","%char :: group3 (d :: more)).
    rewrite !(filter_cons _ a), !(filter_cons _ b), !(filter_cons _ c).
    rewrite (filter_cons_False _ ","%char) by (by intros []).
    rewrite IH by (simpl in *; lia). done.
Qed.

Lemma is_digit_not_comma (a : ascii) :
  is_digit a = true -> a ≠ ","%char.
Proof.
  destruct a as [[] [] [] [] [] [] [] []]; simpl; try discriminate; done.
Qed.

Lemma filter_no_comma_digits (s : string) :
  all_digits s = true ->
  filter (λ a, a ≠ ","%char) (list_ascii_of_string s) = list_ascii_of_string s.
Proof.
  induction s as [| a r IH]; simpl; [done |].
  intros [Ha Hr]%andb_true_iff.
  rewrite filter_cons_True by (by apply is_digit_not_comma). by rewrite IH.
Qed.

Lemma rev_reverse {A} (l : list A) : rev l = reverse l.
Proof. unfold reverse. apply rev_alt. Qed.

(** Taking the commas out of a grouped digit string gives the digits. *)
Lemma remove_comma_group_thousands (s : string) :
  all_digits s = true -> remove_char "," (group_thousands s) = s.
Proof.
  intros Hs. unfold group_thousands.
  rewrite remove_char_filter, list_ascii_of_string_of_list_ascii.
  rewrite !rev_reverse, filter_reverse, (filter_group3 _ _ (le_n _)).
  rewrite <- filter_reverse, reverse_involutive, filter_no_comma_digits by done.
  apply string_of_list_ascii_of_string.
Qed.

Lemma contains_comma_digits (s : string) :
  all_digits s = true -> contains "," s = false.
Proof.
  induction s as [| a r IH]; simpl; [done |].
  intros [Ha Hr]%andb_true_iff.
  destruct (Ascii.eqb_spec a ","%char) as [-> | _]; [done |]. by apply IH.
Qed.

Lemma remove_comma_format_grouped_2f (x : num) :
  remove_char "," (format_grouped_2f x) = format_2f x.
Proof.
  destruct x as [| | | q]; try reflexivity.
  unfold format_grouped_2f, format_2f.
  set (cents := Z.to_N (Z.abs (rint (q * Qc_of_Z 100)))).
  rewrite !remove_char_app.
  rewrite remove_comma_group_thousands by apply digits_all_digits.
  rewrite !(remove_char_absent _ (digits _))
    by apply contains_comma_digits, digits_all_digits.
  by destruct (bool_decide _).
Qed.

Lemma amount_text_format_currency (value : num) :
  amount_text (format_currency value) = format_2f value.
Proof.
  unfold amount_text, format_currency.
  change (drop 4 (list_ascii_of_string (rupee ++ " " ++ ?b)))
    with (list_ascii_of_string b).
  rewrite string_of_list_ascii_of_string.
  apply remove_comma_format_grouped_2f.
Qed.

Lemma float_of_format_currency (value : num) :
  float_of_str (amount_text (format_currency value)) = Some (round2 value).
Proof. rewrite amount_text_format_currency. apply float_of_format_2f. Qed.

(** X17: a currency string is the rupee sign, a blank and the amount
    rounded to hundredths with commas in its integer part: without the
    sign and the commas it is the plain two-decimal format of the amount,
    and reads back as the amount rounded to hundredths. *)
Theorem format_currency_reads_back (value : num) :
  amount_text (format_currency value) = format_2f value ∧
  float_of_str (amount_text (format_currency value)) = Some (round2 value).
Proof.
  split; [apply amount_text_format_currency | apply float_of_format_currency].
Qed.

Example format_currency_examples :
  format_currency (Fin (Q2Qc (1234567891 # 1000)))
    = (rupee ++ " 1,234,567.89")%string /\
  format_currency (of_Z (-1500)) = (rupee ++ " -1,500.00")%string /\
  format_currency (of_Z 999) = (rupee ++ " 999.00")%string /\
  format_currency NaN = (rupee ++ " nan")%string.
Proof. repeat split; vm_compute; reflexivity. Qed.

(** ** The detail table *)

(** X18: the detail table has one row per filtered row, in order; its
    text and quantity cells are those of the row, its two money cells read
    back as the row's amounts rounded to hundredths, and its percentage
    reads back as the row's HPR rounded to hundredths. *)
Theorem display_df_row_by_row (filtered_df : list EnrichedHolding) :
  length (display_df filtered_df) = length filtered_df ∧
  ∀ (i : nat) (r : EnrichedHolding), filtered_df !! i = Some r ->
    ∃ d, display_df filtered_df !! i = Some d ∧
      shown_member d = Member_Name r ∧
      shown_broker d = Broker (holding r) ∧
      shown_sector d = Sector_Display_Name r ∧
      shown_stock d = Stock_Display_Name r ∧
      shown_qty d = Qty (holding r) ∧
      float_of_str (amount_text (shown_cost d))
        = Some (round2 (Value_At_Cost (holding r))) ∧
      float_of_str (amount_text (shown_market d))
        = Some (round2 (Value_At_Market_Price (holding r))) ∧
      float_of_str (remove_char "%" (shown_hpr d)) = Some (round2 (HPR r)).
Proof.
  unfold display_df. split; [apply length_fmap |].
  intros i r Hi. exists (display_row r).
  split; [by rewrite list_lookup_fmap, Hi |].
  split_and!; try done; simpl.
  - apply float_of_format_currency.
  - apply float_of_format_currency.
  - rewrite remove_percent_format_percent. apply float_of_format_2f.
Qed.

Lemma display_df_row_by_row_witness :
  ∃ d, display_df [broker_row (Some "B1"%string) 1000 1200] !! 0%nat = Some d ∧
       shown_broker d = Some "B1"%string ∧
       float_of_str (amount_text (shown_cost d)) = Some (round2 (of_Z 1000)).
Proof.
  destruct (display_df_row_by_row [broker_row (Some "B1"%string) 1000 1200])
    as [_ H].
  destruct (H 0%nat (broker_row (Some "B1"%string) 1000 1200) eq_refl)
    as (d & Hd & _ & Hb & _ & _ & _ & Hc & _).
  exists d. split_and!; [exact Hd | exact Hb | exact Hc].
Defined.

(** ** Titles and headers *)

Lemma get_text_fallback (titles_mapping : gmap string names)
    (key lang : string) :
  (∀ entry, titles_mapping !! key = Some entry -> entry !! lang = None) ->
  get_text titles_mapping key lang = key.
Proof.
  unfold get_text. intros H.
  destruct (titles_mapping !! key) as [entry |] eqn:E; simpl.
  - by rewrite (H entry).
  - by rewrite lookup_empty.
Qed.

(** X19: a title without a translation is shown as its key.  The stock
    column of the detail table is headed, in
    [Dashboard-Summary-canvas.py], by the title of ["Stock Name"] in
    every language (its test against the key changes nothing); in
    [app.py] it is headed by that title in English only, and in any other
    language by the literal ["ISIN Code"] unless the stock table happens
    to have that key, whatever the titles say. *)
Theorem detail_stock_header (titles_mapping stock_mapping : gmap string names)
    (lang : string) :
  (∀ key,
     (∀ entry, titles_mapping !! key = Some entry -> entry !! lang = None) ->
     get_text titles_mapping key lang = key) ∧
  stock_header_canvas titles_mapping lang
    = get_text titles_mapping "Stock Name" lang ∧
  stock_header_app titles_mapping stock_mapping "en"
    = Some (get_text titles_mapping "Stock Name" "en") ∧
  (lang ≠ "en"%string -> stock_mapping !! "ISIN Code"%string = None ->
     stock_header_app titles_mapping stock_mapping lang
       = Some "ISIN Code"%string).
Proof.
  split_and!.
  - intros key. apply get_text_fallback.
  - unfold stock_header_canvas.
    destruct (decide _) as [| Heq]; [done |].
    destruct (decide (get_text titles_mapping "Stock Name" lang
                      = "Stock Name"%string)) as [-> | Hne]; [done |].
    by destruct Heq.
  - reflexivity.
  - intros Hlang Hnone. unfold stock_header_app.
    rewrite decide_False by done.
    apply get_stock_name_fallback. intros s entry [= <-]. by rewrite Hnone.
Qed.

Lemma detail_stock_header_witness :
  stock_header_app {["Stock Name"%string := {["ta"%string := "Pangu"%string]}]}
    ∅ "ta"%string = Some "ISIN Code"%string.
Proof.
  destruct (detail_stock_header
              {["Stock Name"%string := {["ta"%string := "Pangu"%string]}]}
              ∅ "ta"%string) as (_ & _ & _ & H).
  apply H; [discriminate | reflexivity].
Defined.

(** ** Unreadable cells *)





(** ** Percentages, read back *)

(** X2: a number printed with two decimals, with or without the percent
    sign that is then removed, reads back as the number rounded to
    hundredths; a number that is already rounded reads back as itself. *)
Theorem format_percent_reads_back (x : num) :
  float_of_str (format_2f x) = Some (round2 x) ∧
  float_of_str (remove_char "%" (format_percent x)) = Some (round2 x) ∧
  float_of_str (remove_char "%" (format_percent (round2 x))) = Some (round2 x).
Proof.
  rewrite !remove_percent_format_percent, !float_of_format_2f.
  by rewrite round2_idempotent.
Qed.
